(** * The generic multi-version XCM decoder

    A shallow embedding of [src/scripts/helpers/decode-xcm-generic.ts]:
    the fragment splitter [decodeMessageIntoFragmentVec] with its
    primary/fallback type resolution, the version unwrapper
    [unwrapVersionedXcm], the instruction classifier
    [classifyInstruction] and the hex guard [hexToU8aSafe].

    [Uint8Array] objects live in a store of buffers indexed by reference,
    so that aliasing between the caller's buffer and the loop's view is
    visible.  Calls into the decode capability and lines written with
    [console.error] are recorded in the state.  The [while] loop runs on
    fuel: one unit per evaluation of the loop condition. *)

From Stdlib Require Import String Ascii List Bool Arith Lia.
From Stdlib.Strings Require Import Byte.
From stdpp Require Import gmap strings list fin_maps.
From stdpp Require Import pretty.
From Stdlib Require Import ZArith.

(** ** Hexadecimal text *)

(** Value of one hexadecimal digit, upper or lower case. *)
Definition hexDigit (c : ascii) : option nat :=
  let n := nat_of_ascii c in
  if (48 <=? n) && (n <=? 57) then Some (n - 48)
  else if (65 <=? n) && (n <=? 70) then Some (n - 55)
  else if (97 <=? n) && (n <=? 102) then Some (n - 87)
  else None.

Definition isHexDigit (c : ascii) : bool :=
  match hexDigit c with Some _ => true | None => false end.

(** Drops a leading [0x] when there is one. *)
Definition stripPrefix (s : string) : string :=
  match s with
  | String "0"%char (String "x"%char rest) => rest
  | _ => s
  end.

(** Modelled from the spec: [isHex] belongs to the [@polkadot/util]
    package, whose sources are not part of the repository.  The spec (§6)
    describes the accepted format: an optional [0x] prefix, all remaining
    characters hexadecimal digits, and an even number of digits. *)
Definition isHex (input : string) : bool :=
  let digits := list_ascii_of_string (stripPrefix input) in
  forallb isHexDigit digits && Nat.even (length digits).

Definition byteOfDigits (hi lo : ascii) : byte :=
  match hexDigit hi, hexDigit lo with
  | Some h, Some l => default x00 (Byte.of_nat (16 * h + l))
  | _, _ => x00
  end.

Fixpoint hexPairs (cs : list ascii) : list byte :=
  match cs with
  | hi :: lo :: rest => byteOfDigits hi lo :: hexPairs rest
  | _ => []
  end.

(** Modelled from the spec: [hexToU8a] belongs to [@polkadot/util] as
    well.  It reads the digits after the optional prefix two at a time. *)
Definition hexToU8a (input : string) : list byte :=
  hexPairs (list_ascii_of_string (stripPrefix input)).

(** ** Decoded values *)

(** An instruction as the decoder hands it out: the name of its enum
    variant and its [toString()] rendering. *)
Record Instruction := {
  instrType : string;
  instrText : string
}.

(** The payload of a version variant is a JavaScript value: either an
    array of instructions or an object that wraps one. *)
Inductive Payload :=
  | Sequence (items : list Instruction)
  | Wrapped (inner : list Instruction).

Definition Array_isArray (v : Payload) : bool :=
  match v with
  | Sequence _ => true
  | Wrapped _ => false
  end.

(** A decoded [XcmVersionedXcm]: the name of its version variant, the
    payload of that variant, and the bytes [toU8a()] re-encodes it to. *)
Record XcmVersionedXcm := {
  xcmType : string;
  xcmValue : Payload;
  xcmEncoded : list byte
}.

(** A thrown value, seen through [e?.message]; [None] stands for an
    absent message ([undefined] or [null]). *)
Record JsError := { message : option string }.

Definition Error (msg : string) : JsError := {| message := Some msg |}.

(** The error [hexToU8aSafe] throws; the spec calls it InputFormatError. *)
Definition InputFormatError : JsError :=
  Error "Expected hex string for message input".

(** How a call ends: with a value or with a thrown error. *)
Inductive Completion (A : Type) :=
  | Normal (a : A)
  | Throw (e : JsError).
Arguments Normal {A} a.
Arguments Throw {A} e.

(** The decode capability: [provider.createType(name, bytes)].  It is
    free of side effects (spec §5): the outcome depends on the schema name
    and on the bytes it is handed, and on nothing else. *)
Record Provider := {
  createType : string -> list byte -> JsError + XcmVersionedXcm
}.

(** ** State and effects *)

Record World := {
  buffers : gmap nat (list byte);            (* the Uint8Array objects *)
  createTypeCalls : list (string * list byte); (* decode attempts, oldest first *)
  stderr : list string                       (* console.error lines, oldest first *)
}.

(** A computation: from a state to a completion and a new state, or
    [None] when the fuel of a loop is used up. *)
Definition M (A : Type) : Type := World -> option (Completion A * World).

Definition ret {A} (a : A) : M A := fun w => Some (Normal a, w).

Definition throw {A} (e : JsError) : M A := fun w => Some (Throw e, w).

Definition bind {A B} (m : M A) (k : A -> M B) : M B :=
  fun w =>
    match m w with
    | Some (Normal a, w') => k a w'
    | Some (Throw e, w') => Some (Throw e, w')
    | None => None
    end.

Notation "x <- m ;; k" := (bind m (fun x => k))
  (at level 100, m at next level, right associativity).

(** [try { body } catch (e) { handler e }] *)
Definition tryCatch {A} (body : M A) (handler : JsError -> M A) : M A :=
  fun w =>
    match body w with
    | Some (Throw e, w') => handler e w'
    | other => other
    end.

(** [new Uint8Array(...)]: a buffer at a reference not in use. *)
Definition alloc (b : list byte) : M nat :=
  fun w =>
    let r := fresh (dom (buffers w)) in
    Some (Normal r,
          {| buffers := <[r := b]> (buffers w);
             createTypeCalls := createTypeCalls w;
             stderr := stderr w |}).

Definition contents (r : nat) : M (list byte) :=
  fun w => Some (Normal (buffers w !!! r), w).

(** [u8a.length] *)
Definition u8aLength (r : nat) : M nat :=
  b <- contents r ;; ret (length b).

(** [u8a.slice(start)]: a copy of the bytes from [start] on. *)
Definition u8aSlice (r : nat) (start : nat) : M nat :=
  b <- contents r ;; alloc (drop start b).

(** [fragment.toU8a()] *)
Definition toU8a (fragment : XcmVersionedXcm) : M nat :=
  alloc (xcmEncoded fragment).

(** [console.error(line)] *)
Definition consoleError (line : string) : M unit :=
  fun w =>
    Some (Normal tt,
          {| buffers := buffers w;
             createTypeCalls := createTypeCalls w;
             stderr := stderr w ++ [line] |}).

(** [provider.createType(name, u8a)], recorded as a decode attempt. *)
Definition callCreateType (provider : Provider) (name : string) (r : nat)
  : M XcmVersionedXcm :=
  fun w =>
    let b := buffers w !!! r in
    let w' := {| buffers := buffers w;
                 createTypeCalls := createTypeCalls w ++ [(name, b)];
                 stderr := stderr w |} in
    match createType provider name b with
    | inl e => Some (Throw e, w')
    | inr fragment => Some (Normal fragment, w')
    end.

(** ** hexToU8aSafe *)

Definition hexToU8aSafe (input : string) : M nat :=
  if negb (isHex input)
  then throw (Error "Expected hex string for message input")
  else alloc (hexToU8a input).

(** ** decodeMessageIntoFragmentVec *)

(** [a ?? b] on optional strings. *)
Definition nullish (a : option string) (b : string) : string :=
  match a with Some s => s | None => b end.

(** The two nested [try] blocks of the loop body.  [Some fragment] when
    one of the schemas decodes; [None] when both fail, after the error
    line is printed: the loop then breaks. *)
Definition resolveFragment (provider : Provider) (remaining : nat)
  : M (option XcmVersionedXcm) :=
  tryCatch
    (fragment <- callCreateType provider "XcmVersionedXcm" remaining ;;
     ret (Some fragment))
    (fun e1 =>
       tryCatch
         (fragment <- callCreateType provider "StagingXcmVersionedXcm" remaining ;;
          ret (Some fragment))
         (fun e2 =>
            _ <- consoleError
                   (nullish (message e2)
                      (nullish (message e1) "Failed to decode XcmVersionedXcm")) ;;
            ret None)).

(** The [while] loop.  It returns the fragments together with the
    reference held by [remaining] when the loop is left. *)
Fixpoint splitLoop (fuel : nat) (provider : Provider) (remaining : nat)
    (fragments : list XcmVersionedXcm) : M (list XcmVersionedXcm * nat) :=
  match fuel with
  | O => fun _ => None
  | S fuel' =>
      len <- u8aLength remaining ;;
      if len =? 0 then ret (fragments, remaining)
      else
        resolved <- resolveFragment provider remaining ;;
        match resolved with
        | None => ret (fragments, remaining)
        | Some fragment =>
            consumed <- toU8a fragment ;;
            n <- u8aLength consumed ;;
            remaining' <- u8aSlice remaining n ;;
            splitLoop fuel' provider remaining' (fragments ++ [fragment])
        end
  end.

(** The [message] argument: a [Uint8Array] (by reference) or a string. *)
Inductive Message :=
  | U8a (r : nat)
  | Str (s : string).

Definition decodeMessageIntoFragmentVec (fuel : nat) (provider : Provider)
    (message : Message) : M (list XcmVersionedXcm) :=
  bytes <- match message with
           | Str s => hexToU8aSafe s
           | U8a r => ret r
           end ;;
  out <- splitLoop fuel provider bytes [] ;;
  ret (fst out).

(** ** unwrapVersionedXcm *)

(** [vxcm.isV5] and its siblings: the enum getters compare the name of
    the variant held.  A variant the type does not declare has no getter,
    which reads as [undefined], hence false. *)
Definition isVariant (name : string) (vxcm : XcmVersionedXcm) : bool :=
  String.eqb (xcmType vxcm) name.

Definition isV1 := isVariant "V1".
Definition isV2 := isVariant "V2".
Definition isV3 := isVariant "V3".
Definition isV4 := isVariant "V4".
Definition isV5 := isVariant "V5".

(** [vxcm.asV5] and its siblings hand out the payload, and throw when
    another variant is held. *)
Definition asVariant (name : string) (vxcm : XcmVersionedXcm)
  : Completion Payload :=
  if isVariant name vxcm then Normal (xcmValue vxcm)
  else Throw (Error ("Cannot convert via as" +:+ name)).

Definition asV1 := asVariant "V1".
Definition asV2 := asVariant "V2".
Definition asV3 := asVariant "V3".
Definition asV4 := asVariant "V4".
Definition asV5 := asVariant "V5".

(** The returned object.  [instructions] is typed [any[]] in the source;
    at run time it is whatever value the payload getter returned. *)
Record Unwrapped := {
  version : string;
  instructions : Payload
}.

Definition andThen {A B} (c : Completion A) (k : A -> Completion B)
  : Completion B :=
  match c with
  | Normal a => k a
  | Throw e => Throw e
  end.

Definition unwrapVersionedXcm (vxcm : XcmVersionedXcm) : Completion Unwrapped :=
  if isV5 vxcm then
    andThen (asV5 vxcm) (fun v => Normal {| version := "V5"; instructions := v |})
  else if isV4 vxcm then
    andThen (asV4 vxcm) (fun v => Normal {| version := "V4"; instructions := v |})
  else if isV3 vxcm then
    andThen (asV3 vxcm) (fun v => Normal {| version := "V3"; instructions := v |})
  else if isV2 vxcm then
    andThen (asV2 vxcm) (fun v => Normal {| version := "V2"; instructions := v |})
  else if isV1 vxcm then
    andThen (asV1 vxcm) (fun v1 =>
      Normal {| version := "V1";
                instructions := if Array_isArray v1 then v1 else v1 |})
  else
    Normal {| version := "V5"; instructions := Sequence [] |}.

(** ** classifyInstruction *)

(** The argument is typed [any]: all the function looks at is the truth
    value of fifteen properties. *)
Class InstructionLike (I : Type) := {
  isReserveAssetDeposited : I -> bool;
  isDepositAsset : I -> bool;
  isWithdrawAsset : I -> bool;
  isBuyExecution : I -> bool;
  isTransact : I -> bool;
  isDescendOrigin : I -> bool;
  isSetAppendix : I -> bool;
  isExpectTransactStatus : I -> bool;
  isReportTransactStatus : I -> bool;
  isSetTopic : I -> bool;
  isClearTopic : I -> bool;
  isExchangeAsset : I -> bool;
  isDepositReserveAsset : I -> bool;
  isTransferAsset : I -> bool;
  isTransferReserveAsset : I -> bool
}.

Definition classifyInstruction {I} `{InstructionLike I} (instr : I)
  : option string :=
  if isReserveAssetDeposited instr then Some "Reserve Asset Deposited"
  else if isDepositAsset instr then Some "Deposit Asset"
  else if isWithdrawAsset instr then Some "Withdraw Asset"
  else if isBuyExecution instr then Some "Buy Execution"
  else if isTransact instr then Some "Transact"
  else if isDescendOrigin instr then Some "Descend Origin"
  else if isSetAppendix instr then Some "Set Appendix"
  else if isExpectTransactStatus instr then Some "Expect Transact Status"
  else if isReportTransactStatus instr then Some "Report Transact Status"
  else if isSetTopic instr then Some "Set Topic"
  else if isClearTopic instr then Some "Clear Topic"
  else if isExchangeAsset instr then Some "Exchange Asset"
  else if isDepositReserveAsset instr then Some "Deposit Reserve Asset"
  else if isTransferAsset instr then Some "Transfer Asset"
  else if isTransferReserveAsset instr then Some "Transfer Reserve Asset"
  else None.

(** Instructions decoded by the capability are enum values: [isX] holds
    exactly when the variant is named [X]. *)
Definition hasType (name : string) (instr : Instruction) : bool :=
  String.eqb (instrType instr) name.

#[global] Instance Instruction_like : InstructionLike Instruction := {|
  isReserveAssetDeposited := hasType "ReserveAssetDeposited";
  isDepositAsset := hasType "DepositAsset";
  isWithdrawAsset := hasType "WithdrawAsset";
  isBuyExecution := hasType "BuyExecution";
  isTransact := hasType "Transact";
  isDescendOrigin := hasType "DescendOrigin";
  isSetAppendix := hasType "SetAppendix";
  isExpectTransactStatus := hasType "ExpectTransactStatus";
  isReportTransactStatus := hasType "ReportTransactStatus";
  isSetTopic := hasType "SetTopic";
  isClearTopic := hasType "ClearTopic";
  isExchangeAsset := hasType "ExchangeAsset";
  isDepositReserveAsset := hasType "DepositReserveAsset";
  isTransferAsset := hasType "TransferAsset";
  isTransferReserveAsset := hasType "TransferReserveAsset"
|}.

(** The classifier as the spec words it (§4.4): an ordered table of
    (tag predicate, label) pairs, scanned for the first match. *)
Definition classificationTable {I} `{InstructionLike I}
  : list ((I -> bool) * string) :=
  [ (isReserveAssetDeposited, "Reserve Asset Deposited");
    (isDepositAsset, "Deposit Asset");
    (isWithdrawAsset, "Withdraw Asset");
    (isBuyExecution, "Buy Execution");
    (isTransact, "Transact");
    (isDescendOrigin, "Descend Origin");
    (isSetAppendix, "Set Appendix");
    (isExpectTransactStatus, "Expect Transact Status");
    (isReportTransactStatus, "Report Transact Status");
    (isSetTopic, "Set Topic");
    (isClearTopic, "Clear Topic");
    (isExchangeAsset, "Exchange Asset");
    (isDepositReserveAsset, "Deposit Reserve Asset");
    (isTransferAsset, "Transfer Asset");
    (isTransferReserveAsset, "Transfer Reserve Asset") ].

Fixpoint firstMatch {I} (table : list ((I -> bool) * string)) (instr : I)
  : option string :=
  match table with
  | [] => None
  | (test, label) :: rest =>
      if test instr then Some label else firstMatch rest instr
  end.

(** The fifteen variant names of the table, in probing order. *)
Definition classifiedTypes : list string :=
  [ "ReserveAssetDeposited"; "DepositAsset"; "WithdrawAsset"; "BuyExecution";
    "Transact"; "DescendOrigin"; "SetAppendix"; "ExpectTransactStatus";
    "ReportTransactStatus"; "SetTopic"; "ClearTopic"; "ExchangeAsset";
    "DepositReserveAsset"; "TransferAsset"; "TransferReserveAsset" ].

(** The closed set of versions the unwrapper dispatches on. *)
Definition knownVersions : list string := [ "V1"; "V2"; "V3"; "V4"; "V5" ].

(** ** Vocabulary of the properties *)

Definition primarySchema : string := "XcmVersionedXcm".
Definition fallbackSchema : string := "StagingXcmVersionedXcm".

(** What the two nested [try] blocks yield on the bytes [b], apart from
    the bookkeeping: the fragment of the first schema that decodes, or the
    two errors. *)
Definition resolve (provider : Provider) (b : list byte)
  : JsError * JsError + XcmVersionedXcm :=
  match createType provider primarySchema b with
  | inr fragment => inr fragment
  | inl e1 =>
      match createType provider fallbackSchema b with
      | inr fragment => inr fragment
      | inl e2 => inl (e1, e2)
      end
  end.

(** The line printed when both schemas fail. *)
Definition failureLine (e1 e2 : JsError) : string :=
  nullish (message e2) (nullish (message e1) "Failed to decode XcmVersionedXcm").

(** The loop seen on the bytes alone: the fragments cut from the front of
    [b], and the bytes left when the loop stops. *)
Fixpoint fragmentsOf (fuel : nat) (provider : Provider) (b : list byte)
  : option (list XcmVersionedXcm * list byte) :=
  match fuel with
  | O => None
  | S fuel' =>
      if length b =? 0 then Some ([], b)
      else
        match resolve provider b with
        | inl _ => Some ([], b)
        | inr fragment =>
            match fragmentsOf fuel' provider (drop (length (xcmEncoded fragment)) b) with
            | Some (more, remainder) => Some (fragment :: more, remainder)
            | None => None
            end
        end
  end.

(** [k] passes through the loop body, each on a non-empty buffer that
    a schema decodes, from the fragments [acc] and the bytes [b]; [None]
    when the loop would stop earlier. *)
Fixpoint passes (k : nat) (provider : Provider) (acc : list XcmVersionedXcm)
    (b : list byte) : option (list XcmVersionedXcm * list byte) :=
  match k with
  | O => Some (acc, b)
  | S k' =>
      if length b =? 0 then None
      else
        match resolve provider b with
        | inl _ => None
        | inr fragment =>
            passes k' provider (acc ++ [fragment])
              (drop (length (xcmEncoded fragment)) b)
        end
  end.

(** [b] is one valid encoded fragment: it decodes, and the decoded value
    re-encodes to [b] itself. *)
Definition validFragment (provider : Provider) (b : list byte)
    (fragment : XcmVersionedXcm) : Prop :=
  resolve provider b = inr fragment /\ xcmEncoded fragment = b.

(** The encoding is self-delimiting: bytes that follow a complete
    fragment do not change what is decoded. *)
Definition selfDelimiting (provider : Provider) : Prop :=
  forall b fragment rest,
    b <> [] -> validFragment provider b fragment ->
    resolve provider (b ++ rest) = inr fragment.

(** Every decoded value re-encodes to at least one byte. *)
Definition makesProgress (provider : Provider) : Prop :=
  forall name b fragment,
    createType provider name b = inr fragment -> xcmEncoded fragment <> [].

(** The state after decode attempts and error lines were recorded. *)
Definition recorded (w : World) (calls : list (string * list byte))
    (lines : list string) : World :=
  {| buffers := buffers w;
     createTypeCalls := createTypeCalls w ++ calls;
     stderr := stderr w ++ lines |}.

(** The strict hex format in the words of the spec (§6). *)
Definition hexChars : list ascii :=
  list_ascii_of_string "0123456789abcdefABCDEF".

Definition strictHex (input : string) : Prop :=
  exists digits : list ascii,
    (input = string_of_list_ascii digits
     \/ input = "0x" +:+ string_of_list_ascii digits)
    /\ Forall (fun c => In c hexChars) digits
    /\ Nat.Even (length digits).

(** ** Providers used in the examples *)

(** A small self-delimiting format: a version byte, a count [n], then
    [n] one-byte instructions. *)
Definition demoVersion (v : byte) : string :=
  match Byte.to_nat v with
  | 1 => "V1" | 2 => "V2" | 3 => "V3" | 4 => "V4" | 5 => "V5"
  | _ => "V0"
  end.

Definition demoInstruction (i : byte) : Instruction :=
  match Byte.to_nat i with
  | 0 => {| instrType := "WithdrawAsset"; instrText := "{withdrawAsset}" |}
  | 1 => {| instrType := "BuyExecution"; instrText := "{buyExecution}" |}
  | 2 => {| instrType := "DepositAsset"; instrText := "{depositAsset}" |}
  | _ => {| instrType := "ClearOrigin"; instrText := "{clearOrigin}" |}
  end.

Definition demoDecode (b : list byte) : JsError + XcmVersionedXcm :=
  match b with
  | v :: n :: rest =>
      if Byte.to_nat n <=? length rest then
        inr {| xcmType := demoVersion v;
               xcmValue := Sequence (map demoInstruction (take (Byte.to_nat n) rest));
               xcmEncoded := v :: n :: take (Byte.to_nat n) rest |}
      else inl (Error "Unexpected end of input")
  | _ => inl (Error "Unexpected end of input")
  end.

(** The format registered under one schema name only, as on a runtime
    that knows either the stable or the staging name. *)
Definition demoProvider (registered : string) : Provider :=
  {| createType name b :=
       if String.eqb name registered then demoDecode b
       else inl (Error ("Unable to find type " +:+ name)) |}.

(** A capability that decodes any bytes to a value whose encoding is
    empty. *)
Definition stallProvider : Provider :=
  {| createType _ _ :=
       inr {| xcmType := "V5"; xcmValue := Sequence []; xcmEncoded := [] |} |}.

(** A capability that decodes one-byte buffers only. *)
Definition exactProvider : Provider :=
  {| createType _ b :=
       match b with
       | [x] => inr {| xcmType := "V5"; xcmValue := Sequence []; xcmEncoded := [x] |}
       | _ => inl (Error "Expected one byte")
       end |}.

(** A capability on which both schemas fail, with the error [e1] under
    the primary name and [e2] under any other. *)
Definition failingProvider (e1 e2 : JsError) : Provider :=
  {| createType name _ :=
       if String.eqb name primarySchema then inl e1 else inl e2 |}.

(** A state holding the caller's buffer at reference 0. *)
Definition callerWorld (b : list byte) : World :=
  {| buffers := {[ 0 := b ]}; createTypeCalls := []; stderr := [] |}.

Definition demoMessage : list byte := [x03; x02; x00; x02].

Definition wrappedV1 : XcmVersionedXcm :=
  {| xcmType := "V1";
     xcmValue := Wrapped [demoInstruction x00; demoInstruction x02];
     xcmEncoded := [x01; x02; x00; x02] |}.

(** ** decodeXCMGeneric *)

(** What the printer takes from outside: [blake2AsU8a] of
    [@polkadot/util-crypto], [u8aToHex] of [@polkadot/util], and the
    [toHuman()] view of a fragment, as the text [console.log] shows. *)
Record Rendering := {
  blake2AsU8a : list byte -> list byte;
  u8aToHex : list byte -> string;
  toHuman : XcmVersionedXcm -> string
}.

(** The five [console.log] calls of the function. *)
Inductive LogCall :=
  | HashLine (position : nat) (hex : string)
  | HumanView (human : string)
  | LabelLine (label : string)
  | InstructionLine (text : string)
  | Separator.

Definition newline : string := String "010"%char EmptyString.

(** The arguments each call hands to [console.log]. *)
Definition render (call : LogCall) : list string :=
  match call with
  | HashLine position hex =>
      [ "Blake2 hash of fragment " +:+ pretty position +:+ " is: " +:+ hex
          +:+ newline ]
  | HumanView human => [ human; newline ]
  | LabelLine label => [ label +:+ ":" ]
  | InstructionLine text => [ text; newline ]
  | Separator => [ "-------------------" +:+ newline ]
  end.

(** The state of the printer: the state of the splitter, and the calls
    to [console.log], oldest first. *)
Record Console := {
  world : World;
  stdout : list LogCall
}.

Definition P (A : Type) : Type := Console -> option (Completion A * Console).

Definition retP {A} (a : A) : P A := fun c => Some (Normal a, c).

Definition throwP {A} (e : JsError) : P A := fun c => Some (Throw e, c).

Definition bindP {A B} (m : P A) (k : A -> P B) : P B :=
  fun c =>
    match m c with
    | Some (Normal a, c') => k a c'
    | Some (Throw e, c') => Some (Throw e, c')
    | None => None
    end.

Notation "x <-- m ;; k" := (bindP m (fun x => k))
  (at level 100, m at next level, right associativity).

(** A computation of the splitter, run inside the printer. *)
Definition liftM {A} (m : M A) : P A :=
  fun c =>
    match m (world c) with
    | Some (result, w') => Some (result, {| world := w'; stdout := stdout c |})
    | None => None
    end.

Definition liftCompletion {A} (result : Completion A) : P A :=
  fun c => Some (result, c).

(** [console.log(...)] *)
Definition consoleLog (call : LogCall) : P unit :=
  fun c =>
    Some (Normal tt, {| world := world c; stdout := stdout c ++ [call] |}).

(** A string in a condition: the empty string is false. *)
Definition truthy (s : string) : bool := negb (String.eqb s "").

(** Calling a method a value does not have. *)
Definition TypeError (what : string) : JsError :=
  Error (what +:+ " is not a function").

(** The callback handed to [forEach]. *)
Definition printInstruction (instruction : Instruction) : P unit :=
  let label := classifyInstruction instruction in
  _ <-- match label with
        | Some text => if truthy text then consoleLog (LabelLine text) else retP tt
        | None => retP tt
        end ;;
  consoleLog (InstructionLine (instrText instruction)).

Fixpoint forEachItem {A} (callback : A -> P unit) (items : list A) : P unit :=
  match items with
  | [] => retP tt
  | item :: rest => _ <-- callback item ;; forEachItem callback rest
  end.

(** [instructions.forEach(callback)]: an array has the method, the
    wrapping object has not. *)
Definition forEach (instructions : Payload) (callback : Instruction -> P unit)
  : P unit :=
  match instructions with
  | Sequence items => forEachItem callback items
  | Wrapped _ => throwP (TypeError "instructions.forEach")
  end.

(** The body of the [for] loop, from index [i] on. *)
Fixpoint printFragments (env : Rendering) (i : nat)
    (fragments : list XcmVersionedXcm) : P unit :=
  match fragments with
  | [] => retP tt
  | fragment :: rest =>
      encoded <-- liftM (toU8a fragment) ;;
      bytes <-- liftM (contents encoded) ;;
      hash <-- liftM (alloc (blake2AsU8a env bytes)) ;;
      hashBytes <-- liftM (contents hash) ;;
      _ <-- consoleLog (HashLine (i + 1) (u8aToHex env hashBytes)) ;;
      _ <-- consoleLog (HumanView (toHuman env fragment)) ;;
      unwrapped <-- liftCompletion (unwrapVersionedXcm fragment) ;;
      _ <-- forEach (instructions unwrapped) printInstruction ;;
      _ <-- consoleLog Separator ;;
      printFragments env (S i) rest
  end.

Definition decodeXCMGeneric (fuel : nat) (env : Rendering) (provider : Provider)
    (message : Message) : P unit :=
  fragments <-- liftM (decodeMessageIntoFragmentVec fuel provider message) ;;
  printFragments env 0 fragments.

(** ** The price ids asked of the price service

    From the second script of the file: the ids of the batched price
    request, lines 210 to 218. *)

(** [Boolean(value)] on the value of a property that holds a string when
    it is there: absent, [null] and the empty string are false. *)
Definition jsBoolean (value : option string) : bool :=
  match value with
  | Some text => truthy text
  | None => false
  end.

(** [new Set(values)], then [[...set]]: the values in the order in which
    they were first added.  [seen] is the set so far. *)
Fixpoint addAll (seen : list string) (values : list string) : list string :=
  match values with
  | [] => seen
  | value :: rest =>
      addAll (if existsb (String.eqb value) seen then seen else seen ++ [value])
             rest
  end.

Definition spreadSet (values : list string) : list string := addAll [] values.

Section PriceIds.
Context {Asset : Type} (apiNameOf : Asset -> option string).

(** [jsonData.map((asset) => asset["api-name"]).filter(Boolean)] *)
Definition apiNames (jsonData : list Asset) : list string :=
  omap id (List.filter jsBoolean (map apiNameOf jsonData)).

(** [[...new Set(apiNames)]] *)
Definition uniqueApiNames (jsonData : list Asset) : list string :=
  spreadSet (apiNames jsonData).

(** The [ids] parameter of the request, when a request is made:
    [uniqueApiNames.join(",")] under [uniqueApiNames.length > 0]. *)
Definition idsParam (jsonData : list Asset) : option string :=
  if 0 <? length (uniqueApiNames jsonData)
  then Some (String.concat "," (uniqueApiNames jsonData))
  else None.
End PriceIds.

(** ** The address derivation script

    The other script of the repository: [main] derives an account from a
    para id (mode 1) or hashes a description of a remote origin (mode
    2).  Library calls are taken from a record; what is printed is
    recorded call by call. *)

(** The command line, as [yargs] hands it over.  [parents] is a number;
    the script compares it with 0, 1 and 2 only. *)
Record CliArgs := {
  argAddress : option string;     (* args["address"] *)
  argParents : Z;                 (* args["parents"] *)
  argParaId : option Z;           (* args["para-id"] *)
  argConsensus : option string    (* args["consensus"] *)
}.

(** The library functions [main] calls, apart from [hexToU8a].  Those
    that can throw return an error or a value. *)
Record Toolkit := {
  decodeAddress : string -> JsError + list byte;
  stringToU8a : string -> list byte;
  bnToU8a : Z -> nat -> JsError + list byte;   (* value, bitLength; isLe *)
  encodeAddress : list byte -> JsError + string;
  textEncode : string -> list byte;            (* encoder.encode *)
  compactU32 : Z -> JsError + list byte;       (* createType("Compact<u32>", n).toU8a() *)
  junctionPair : Z -> option string -> list byte -> JsError + list byte;
                                               (* createType("[Junction; 2]", ...).toU8a() *)
  blake2 : list byte -> list byte              (* blake2AsU8a *)
}.

(** Who threw: a [throw] statement of the script, or a library call. *)
Inductive Thrown :=
  | ByScript (text : string)
  | ByLibrary (e : JsError).

(** The calls to [console.log], one constructor per call.  Bytes are
    printed through [u8aToHex]. *)
Inductive ScriptLine :=
  | ModeBanner                               (* line 73 *)
  | TypeLine (typeString : string)           (* line 74 *)
  | ParentsLine (parents : Z)                (* line 75 *)
  | ParaIdLine (paraId : Z)                  (* line 76 *)
  | Raw32Line (accountBytes : list byte)     (* line 77 *)
  | Raw20Line (accountBytes20 : list byte)   (* line 78 *)
  | Ss58Line (ss58 : string)                 (* line 79 *)
  | ToHashLine (toHash : list byte)          (* line 142 *)
  | OriginLine (family : string)             (* line 145 *)
  | OriginParaIdLine (paraId : Z)            (* line 146 *)
  | OriginParentsLine (parents : Z)          (* line 147 *)
  | ConsensusLine (consensus : option string) (* line 148 *)
  | AccountLine (accType address : string)   (* line 149 *)
  | Address32Line (bytes : list byte)        (* line 155 *)
  | Address20Line (bytes : list byte).       (* line 156 *)

Definition Script (A : Type) : Type :=
  list ScriptLine -> (Thrown + A) * list ScriptLine.

Definition done {A} (a : A) : Script A := fun printed => (inr a, printed).

Definition throwError {A} (text : string) : Script A :=
  fun printed => (inl (ByScript text), printed).

Definition library {A} (result : JsError + A) : Script A :=
  fun printed =>
    match result with
    | inl e => (inl (ByLibrary e), printed)
    | inr a => (inr a, printed)
    end.

Definition say (line : ScriptLine) : Script unit :=
  fun printed => (inr tt, printed ++ [line]).

Definition andNext {A B} (m : Script A) (k : A -> Script B) : Script B :=
  fun printed =>
    match m printed with
    | (inr a, printed') => k a printed'
    | (inl e, printed') => (inl e, printed')
    end.

Notation "x <~ m ;; k" := (andNext m (fun x => k))
  (at level 100, m at next level, right associativity).

(** A number in a condition: zero is false. *)
Definition jsNumber (value : option Z) : bool :=
  match value with
  | Some n => negb (n =? 0)%Z
  | None => false
  end.

Definition isDefined {A} (value : option A) : bool :=
  match value with Some _ => true | None => false end.

(** Lines 36 to 45. *)
Definition familyOf (args : CliArgs) : string :=
  if (argParents args =? 0)%Z && jsNumber (argParaId args) then "ChildChain"
  else if (argParents args =? 1)%Z && negb (jsNumber (argParaId args))
       then "ParentChain"
  else if (argParents args =? 2)%Z
       then (if jsBoolean (argAddress args)
             then "glblcnsnss" else "glblcnsnss/prchn_")
  else "SiblingChain".

(** The test of line 54. *)
Definition isModeOne (args : CliArgs) : bool :=
  negb (jsBoolean (argAddress args))
  && negb (jsBoolean (argConsensus args))
  && isDefined (argParaId args)
  && ((argParents args =? 0)%Z || (argParents args =? 1)%Z).

(** Lines 58 to 80: para id to address, no hashing. *)
Definition modeOne (tk : Toolkit) (parents paraId : Z) : Script unit :=
  let typeString := if (parents =? 0)%Z then "para" else "sibl" in
  let typeEncoded := stringToU8a tk typeString in
  paraIdEncoded <~ library (bnToU8a tk paraId 16) ;;
  let totalLen := length typeEncoded + length paraIdEncoded in
  if 32 <? totalLen then
    throwError ("Type (" +:+ typeString +:+ ") + paraId bytes exceed 32 bytes (got "
                +:+ pretty totalLen +:+ ")")
  else
    let zeroPadding := replicate (32 - totalLen) x00 in
    let accountBytes := typeEncoded ++ paraIdEncoded ++ zeroPadding in
    let accountBytes20 := take 20 accountBytes in
    ss58 <~ library (encodeAddress tk accountBytes) ;;
    _ <~ say ModeBanner ;;
    _ <~ say (TypeLine typeString) ;;
    _ <~ say (ParentsLine parents) ;;
    _ <~ say (ParaIdLine paraId) ;;
    _ <~ say (Raw32Line accountBytes) ;;
    _ <~ say (Raw20Line accountBytes20) ;;
    say (Ss58Line ss58).

(** Lines 88 to 143: the bytes to hash. *)
Definition bytesToHash (tk : Toolkit) (args : CliArgs) (ethAddress : bool)
    (accType : option string) (decodedAddress : option (list byte))
    (consensus : option (list byte)) (family : string)
  : Script (list byte) :=
  match (if jsBoolean (argAddress args) then decodedAddress else None),
        accType with
  | Some decoded, Some accountType =>
      if (argParents args =? 2)%Z then
        match consensus with
        | None => throwError "Consensus must be set for parents=2"
        | Some network =>
            if negb ethAddress || negb (String.eqb accountType "AccountKey20")
            then throwError "GlobalConsensus (parents=2) branch currently supports AccountKey20 (20-byte) addresses only"
            else
              match argParaId args with
              | None =>
                  throwError "ParaId must be provided for parents=2 GlobalConsensus case"
              | Some paraId =>
                  junctions <~ library (junctionPair tk paraId
                                          (argConsensus args) decoded) ;;
                  done (textEncode tk family ++ network ++ [x08] ++ junctions)
              end
        end
      else
        paraIdBytes <~ match argParaId args with
                       | Some paraId => library (compactU32 tk paraId)
                       | None => done []
                       end ;;
        lengthBytes <~ library
                         (compactU32 tk
                            (Z.of_nat (String.length accountType)
                             + (if ethAddress then 20 else 32))%Z) ;;
        done (textEncode tk family
              ++ default [] consensus
              ++ paraIdBytes
              ++ lengthBytes
              ++ textEncode tk accountType
              ++ decoded)
  | _, _ =>
      paraIdBytes <~ match argParaId args with
                     | Some paraId => library (bnToU8a tk paraId 32)
                     | None => done []
                     end ;;
      let toHash := textEncode tk family ++ default [] consensus ++ paraIdBytes in
      _ <~ say (ToHashLine toHash) ;;
      done toHash
  end.

Definition deriveMain (tk : Toolkit) (args : CliArgs) : Script unit :=
  let address := argAddress args in
  let ethAddress :=
    jsBoolean address && (String.length (default "" address) =? 42) in
  let accType :=
    if jsBoolean address
    then Some (if ethAddress then "AccountKey20" else "AccountId32")
    else None in
  decodedAddress <~ (if jsBoolean address then
                       if ethAddress
                       then done (Some (hexToU8a (default "" address)))
                       else decoded <~ library
                                         (decodeAddress tk (default "" address)) ;;
                            done (Some decoded)
                     else done None) ;;
  let paraId := argParaId args in
  let parents := argParents args in
  consensus <~ (if (parents =? 2)%Z && negb (jsBoolean (argConsensus args)) then
                  throwError "For 2 Parents, Consensus type must be specified as Polkadot or Kusama"
                else if (parents =? 2)%Z && jsBoolean (argConsensus args) then
                  done (Some (if String.eqb (default "" (argConsensus args))
                                            "Polkadot"
                              then [x02] else [x03]))
                else done None) ;;
  let family := familyOf args in
  if isModeOne args then
    match paraId with
    | Some id => modeOne tk parents id
    | None => done tt
    end
  else
    toHash <~ bytesToHash tk args ethAddress accType decodedAddress consensus
                family ;;
    _ <~ say (OriginLine family) ;;
    _ <~ match paraId with
         | Some id => say (OriginParaIdLine id)
         | None => done tt
         end ;;
    _ <~ say (OriginParentsLine parents) ;;
    _ <~ (if isDefined consensus then say (ConsensusLine (argConsensus args))
          else done tt) ;;
    _ <~ match accType with
         | Some accountType =>
             if jsBoolean address
             then say (AccountLine accountType (default "" address))
             else done tt
         | None => done tt
         end ;;
    let hash := blake2 tk toHash in
    _ <~ say (Address32Line (take 32 hash)) ;;
    say (Address20Line (take 20 hash)).

(** A toolkit for the examples. *)
Definition demoToolkit : Toolkit :=
  {| decodeAddress text :=
       if String.length text =? 0 then inl (Error "Invalid decoded address")
       else inr (replicate 32 x01);
     stringToU8a text := replicate (String.length text) x70;
     bnToU8a value bitLength :=
       if (value <? 2 ^ Z.of_nat bitLength)%Z
       then inr (replicate (bitLength / 8) x07)
       else inl (Error "byte array longer than desired length");
     encodeAddress b := inr (pretty (length b));
     textEncode text := replicate (String.length text) x66;
     compactU32 value := inr [x2a];
     junctionPair paraId network key := inr (x00 :: key);
     blake2 b := replicate 32 x0b ++ b |}.

(** ** Vocabulary of the further properties *)

Definition encodedLength (fragment : XcmVersionedXcm) : nat :=
  length (xcmEncoded fragment).

(** The calls printed for one instruction, and for one fragment whose
    instructions are [items]. *)
Definition instructionReport (instruction : Instruction) : list LogCall :=
  match classifyInstruction instruction with
  | Some text => [LabelLine text; InstructionLine (instrText instruction)]
  | None => [InstructionLine (instrText instruction)]
  end.

Definition fragmentHeader (env : Rendering) (position : nat)
    (fragment : XcmVersionedXcm) : list LogCall :=
  [ HashLine position (u8aToHex env (blake2AsU8a env (xcmEncoded fragment)));
    HumanView (toHuman env fragment) ].

(** The instruction array the printer walks for a fragment; [None] when
    the unwrapped value is no array. *)
Definition printedInstructions (fragment : XcmVersionedXcm)
  : option (list Instruction) :=
  match unwrapVersionedXcm fragment with
  | Normal {| instructions := Sequence items |} => Some items
  | _ => None
  end.

Fixpoint report (env : Rendering) (position : nat)
    (fragments : list XcmVersionedXcm) : list LogCall :=
  match fragments with
  | [] => []
  | fragment :: rest =>
      fragmentHeader env position fragment
        ++ flat_map instructionReport
             (default [] (printedInstructions fragment))
        ++ [Separator]
        ++ report env (S position) rest
  end.

(** The console after the hash line and the human view of a fragment:
    two buffers were made, one for the re-encoding and one for the hash. *)
Definition afterHeader (env : Rendering) (position : nat)
    (fragment : XcmVersionedXcm) (c : Console) : Console :=
  let h1 := <[fresh (dom (buffers (world c))) := xcmEncoded fragment]>
              (buffers (world c)) in
  {| world :=
       {| buffers := <[fresh (dom h1) := blake2AsU8a env (xcmEncoded fragment)]> h1;
          createTypeCalls := createTypeCalls (world c);
          stderr := stderr (world c) |};
     stdout := stdout c ++ fragmentHeader env position fragment |}.

Definition instructionTexts (calls : list LogCall) : list string :=
  omap (fun call =>
          match call with InstructionLine text => Some text | _ => None end)
       calls.

Definition hashPositions (calls : list LogCall) : list nat :=
  omap (fun call =>
          match call with HashLine position _ => Some position | _ => None end)
       calls.

Definition separators (calls : list LogCall) : nat :=
  length (omap (fun call =>
                  match call with Separator => Some tt | _ => None end)
               calls).

(** The label with its blanks taken out. *)
Fixpoint withoutBlanks (s : string) : string :=
  match s with
  | EmptyString => EmptyString
  | String c rest =>
      if Ascii.eqb c " " then withoutBlanks rest
      else String c (withoutBlanks rest)
  end.

(** A run of the loop on the bytes [b], seen from outside: the fragments
    cut, the bytes left, the decode attempts and the lines printed. *)
Inductive SplitTrace (provider : Provider)
  : list byte -> list XcmVersionedXcm -> list byte
    -> list (string * list byte) -> list string -> Prop :=
  | trace_empty :
      SplitTrace provider [] [] [] [] []
  | trace_break b e1 e2 :
      b <> [] ->
      createType provider primarySchema b = inl e1 ->
      createType provider fallbackSchema b = inl e2 ->
      SplitTrace provider b [] b
        [(primarySchema, b); (fallbackSchema, b)] [failureLine e1 e2]
  | trace_primary b fragment fragments remainder calls lines :
      b <> [] ->
      createType provider primarySchema b = inr fragment ->
      SplitTrace provider (drop (encodedLength fragment) b)
        fragments remainder calls lines ->
      SplitTrace provider b (fragment :: fragments) remainder
        ((primarySchema, b) :: calls) lines
  | trace_fallback b e1 fragment fragments remainder calls lines :
      b <> [] ->
      createType provider primarySchema b = inl e1 ->
      createType provider fallbackSchema b = inr fragment ->
      SplitTrace provider (drop (encodedLength fragment) b)
        fragments remainder calls lines ->
      SplitTrace provider b (fragment :: fragments) remainder
        ((primarySchema, b) :: (fallbackSchema, b) :: calls) lines.

(** A capability whose decoded value re-encodes to more bytes than it
    was given: missing bytes read as zero. *)
Definition paddingProvider : Provider :=
  {| createType _ b :=
       match b with
       | [] => inl (Error "Unexpected end of input")
       | v :: _ =>
           inr {| xcmType := demoVersion v;
                  xcmValue := Sequence [];
                  xcmEncoded := [v; x00; x00; x00] |}
       end |}.

(** The demo format on an older chain: the payload of a V1 message is
    an object around the instructions, not an array. *)
Definition legacyProvider : Provider :=
  {| createType _ b :=
       match demoDecode b with
       | inl e => inl e
       | inr fragment =>
           inr {| xcmType := xcmType fragment;
                  xcmValue :=
                    match xcmValue fragment with
                    | Sequence items =>
                        if String.eqb (xcmType fragment) "V1"
                        then Wrapped items else Sequence items
                    | Wrapped inner => Wrapped inner
                    end;
                  xcmEncoded := xcmEncoded fragment |}
       end |}.

Definition demoRendering : Rendering :=
  {| blake2AsU8a b := rev b;
     u8aToHex b := pretty (length b);
     toHuman fragment := xcmType fragment |}.

Definition consoleWith (b : list byte) : Console :=
  {| world := callerWorld b; stdout := [] |}.

(** * Properties *)

(** ** The store of buffers *)

Lemma lookup_total_of_lookup (h : gmap nat (list byte)) r b :
  h !! r = Some b -> h !!! r = b.
Proof. intros H. by rewrite lookup_total_alt, H. Qed.

(** A reference that reads as a non-empty buffer is in use. *)
Lemma nonempty_in_dom (h : gmap nat (list byte)) r :
  h !!! r <> [] -> r ∈ dom h.
Proof.
  intros H. apply elem_of_dom.
  destruct (h !! r) as [b|] eqn:E; [by eexists|].
  exfalso. apply H. by rewrite lookup_total_alt, E.
Qed.

Lemma fresh_lookup_None (h : gmap nat (list byte)) :
  h !! fresh (dom h) = None.
Proof. apply not_elem_of_dom, is_fresh. Qed.

Lemma insert_fresh_subseteq (h : gmap nat (list byte)) b :
  h ⊆ <[fresh (dom h) := b]> h.
Proof. apply insert_subseteq, fresh_lookup_None. Qed.

Lemma insert_fresh_other (h : gmap nat (list byte)) b r :
  h !!! r <> [] -> <[fresh (dom h) := b]> h !!! r = h !!! r.
Proof.
  intros H. apply lookup_total_insert_ne.
  intros E. apply nonempty_in_dom in H. rewrite <- E in H.
  by apply is_fresh in H.
Qed.

(** ** The type resolver *)

Lemma resolveFragment_resolve provider r w :
  resolveFragment provider r w =
    match createType provider primarySchema (buffers w !!! r) with
    | inr fragment =>
        Some (Normal (Some fragment),
              recorded w [(primarySchema, buffers w !!! r)] [])
    | inl e1 =>
        match createType provider fallbackSchema (buffers w !!! r) with
        | inr fragment =>
            Some (Normal (Some fragment),
                  recorded w [(primarySchema, buffers w !!! r);
                              (fallbackSchema, buffers w !!! r)] [])
        | inl e2 =>
            Some (Normal None,
                  recorded w [(primarySchema, buffers w !!! r);
                              (fallbackSchema, buffers w !!! r)]
                             [failureLine e1 e2])
        end
    end.
Proof.
  unfold resolveFragment, tryCatch, bind, callCreateType, recorded,
    primarySchema, fallbackSchema; simpl.
  destruct (createType provider "XcmVersionedXcm" (buffers w !!! r)) as [e1|f1];
    simpl; [|by rewrite app_nil_r].
  destruct (createType provider "StagingXcmVersionedXcm" (buffers w !!! r))
    as [e2|f2]; simpl.
  - unfold consoleError, ret; simpl. by rewrite <- app_assoc.
  - by rewrite <- app_assoc, app_nil_r.
Qed.

(** The resolver never throws and never touches the buffers. *)
Lemma resolveFragment_outcome provider r w :
  exists calls lines,
    resolveFragment provider r w =
      Some (Normal (match resolve provider (buffers w !!! r) with
                    | inr fragment => Some fragment
                    | inl _ => None
                    end),
            recorded w calls lines).
Proof.
  rewrite resolveFragment_resolve. unfold resolve.
  destruct (createType provider primarySchema _); [|by eexists _, _].
  destruct (createType provider fallbackSchema _); by eexists _, _.
Qed.

(** ** The loop and its view on the bytes *)

(** One pass through the loop body, when the buffer is non-empty and a
    schema decodes it. *)
Lemma splitLoop_step fuel provider r acc w fragment :
  buffers w !!! r <> [] ->
  resolve provider (buffers w !!! r) = inr fragment ->
  exists r' w',
    splitLoop (S fuel) provider r acc w
      = splitLoop fuel provider r' (acc ++ [fragment]) w'
    /\ buffers w' !!! r' = drop (length (xcmEncoded fragment)) (buffers w !!! r)
    /\ buffers w ⊆ buffers w'
    /\ stderr w' = stderr w.
Proof.
  intros Hne Hres.
  destruct (resolveFragment_outcome provider r w) as (calls & lines & Hrf).
  rewrite Hres in Hrf.
  assert (Hlines : lines = []).
  { rewrite resolveFragment_resolve in Hrf. unfold resolve in Hres.
    destruct (createType provider primarySchema _).
    - destruct (createType provider fallbackSchema _); [discriminate|].
      injection Hrf as _ _ Hl. by apply app_inv_head in Hl.
    - injection Hrf as _ _ Hl. by apply app_inv_head in Hl. }
  subst lines.
  set (w1 := recorded w calls []) in *.
  set (r1 := fresh (dom (buffers w1))).
  set (h1 := <[r1 := xcmEncoded fragment]> (buffers w1)).
  set (r2 := fresh (dom h1)).
  set (b2 := drop (length (xcmEncoded fragment)) (buffers w !!! r)).
  exists r2,
    {| buffers := <[r2 := b2]> h1;
       createTypeCalls := createTypeCalls w1;
       stderr := stderr w1 |}.
  split; [|split; [|split]].
  - cbn [splitLoop]. unfold bind at 1. unfold u8aLength at 1.
    unfold bind at 1, contents at 1, ret at 1.
    destruct (length (buffers w !!! r) =? 0) eqn:El.
    { apply Nat.eqb_eq in El. by destruct (buffers w !!! r). }
    unfold bind at 1. rewrite Hrf.
    unfold bind at 1, toU8a at 1, alloc at 1.
    fold r1. fold h1.
    unfold bind at 1, u8aLength at 1, bind at 1, contents at 1, ret at 1.
    cbn [buffers].
    unfold h1 at 1. rewrite lookup_total_insert_eq.
    unfold bind at 1, u8aSlice at 1, bind at 1, contents at 1, alloc at 1.
    cbn [buffers createTypeCalls stderr].
    assert (Hr : h1 !!! r = buffers w !!! r).
    { unfold h1, r1. by rewrite insert_fresh_other. }
    rewrite Hr. reflexivity.
  - cbn [buffers]. by rewrite lookup_total_insert_eq.
  - cbn [buffers]. etrans; [|apply insert_fresh_subseteq].
    unfold h1, r1. apply insert_fresh_subseteq.
  - cbn [stderr]. unfold w1, recorded; simpl. by rewrite app_nil_r.
Qed.

(** The loop is left at once on an empty buffer. *)
Lemma splitLoop_empty fuel provider r acc w :
  buffers w !!! r = [] ->
  splitLoop (S fuel) provider r acc w = Some (Normal (acc, r), w).
Proof.
  intros He. cbn [splitLoop].
  unfold bind, u8aLength, bind, contents, ret. by rewrite He.
Qed.

(** The loop breaks when both schemas fail; one line is printed. *)
Lemma splitLoop_break fuel provider r acc w e1 e2 :
  buffers w !!! r <> [] ->
  resolve provider (buffers w !!! r) = inl (e1, e2) ->
  splitLoop (S fuel) provider r acc w
    = Some (Normal (acc, r),
            recorded w [(primarySchema, buffers w !!! r);
                        (fallbackSchema, buffers w !!! r)]
                       [failureLine e1 e2]).
Proof.
  intros Hne Hres. cbn [splitLoop].
  unfold bind at 1, u8aLength at 1, bind at 1, contents at 1, ret at 1.
  destruct (length (buffers w !!! r) =? 0) eqn:El.
  { apply Nat.eqb_eq in El. by destruct (buffers w !!! r). }
  unfold bind at 1. rewrite resolveFragment_resolve.
  unfold resolve in Hres.
  destruct (createType provider primarySchema _) as [e1'|]; [|discriminate].
  destruct (createType provider fallbackSchema _) as [e2'|]; [|discriminate].
  by injection Hres as -> ->.
Qed.

(** The loop computes [fragmentsOf] on the contents of its buffer: same
    fragments, same bytes left, and it runs out of fuel exactly when
    [fragmentsOf] does.  Buffers in use before the loop keep their
    contents. *)
Lemma splitLoop_fragmentsOf provider fuel :
  forall r acc w,
    match fragmentsOf fuel provider (buffers w !!! r) with
    | Some (fragments, remainder) =>
        exists r' w',
          splitLoop fuel provider r acc w = Some (Normal (acc ++ fragments, r'), w')
          /\ buffers w' !!! r' = remainder
          /\ buffers w ⊆ buffers w'
    | None => splitLoop fuel provider r acc w = None
    end.
Proof.
  induction fuel as [|fuel IH]; intros r acc w; [reflexivity|].
  cbn [fragmentsOf].
  destruct (length (buffers w !!! r) =? 0) eqn:El.
  { apply Nat.eqb_eq in El.
    assert (He : buffers w !!! r = []) by by destruct (buffers w !!! r).
    exists r, w. rewrite splitLoop_empty, app_nil_r by done.
    by rewrite He. }
  assert (Hne : buffers w !!! r <> []).
  { intros He. by rewrite He in El. }
  destruct (resolve provider (buffers w !!! r)) as [[e1 e2]|fragment] eqn:Hres.
  { eexists r, _. rewrite (splitLoop_break _ _ _ _ _ e1 e2), app_nil_r by done.
    by repeat split. }
  destruct (splitLoop_step fuel provider r acc w fragment Hne Hres)
    as (r1 & w1 & Hstep & Hbuf & Hsub & _).
  rewrite Hstep, <- Hbuf.
  specialize (IH r1 (acc ++ [fragment]) w1).
  destruct (fragmentsOf fuel provider (buffers w1 !!! r1))
    as [[fragments remainder]|]; [|done].
  destruct IH as (r' & w' & Hrun & Hrem & Hsub').
  exists r', w'. rewrite Hrun, <- app_assoc. repeat split; [done|].
  by etrans.
Qed.

(** When every decoded value takes at least one byte, the length of the
    buffer plus one is enough fuel, and the loop stops on an empty buffer
    or on bytes no schema decodes. *)
Lemma fragmentsOf_terminates provider :
  makesProgress provider ->
  forall fuel b,
    length b < fuel ->
    exists fragments remainder,
      fragmentsOf fuel provider b = Some (fragments, remainder)
      /\ (remainder = [] \/ exists e1 e2, resolve provider remainder = inl (e1, e2)).
Proof.
  intros Hprog. induction fuel as [|fuel IH]; intros b Hlen; [lia|].
  cbn [fragmentsOf].
  destruct (length b =? 0) eqn:El.
  { apply Nat.eqb_eq in El. exists [], b. split; [done|].
    left. by destruct b. }
  apply Nat.eqb_neq in El.
  destruct (resolve provider b) as [[e1 e2]|fragment] eqn:Hres.
  { exists [], b. split; [done|]. right. by exists e1, e2. }
  assert (Hpos : xcmEncoded fragment <> []).
  { unfold resolve in Hres.
    destruct (createType provider primarySchema b) eqn:E1.
    - destruct (createType provider fallbackSchema b) eqn:E2; [discriminate|].
      injection Hres as ->. by eapply Hprog.
    - injection Hres as ->. by eapply Hprog. }
  destruct (IH (drop (length (xcmEncoded fragment)) b))
    as (fragments & remainder & Hrun & Hstop).
  { rewrite length_drop. destruct (xcmEncoded fragment); [done|]. simpl. lia. }
  exists (fragment :: fragments), remainder. by rewrite Hrun.
Qed.

(** ** The version unwrapper *)

Lemma isVariant_true name vxcm :
  isVariant name vxcm = true <-> xcmType vxcm = name.
Proof. apply String.eqb_eq. Qed.

Lemma isVariant_false name vxcm :
  isVariant name vxcm = false <-> xcmType vxcm <> name.
Proof. apply String.eqb_neq. Qed.

(** C3.  A message whose version discriminant is none of V1..V5 unwraps
    to version "V5" with an empty instruction array, and nothing is
    thrown; a message whose discriminant is V2 and whose payload is an
    instruction sequence unwraps to version "V2" with that very sequence,
    same instructions in the same order. *)
Theorem unwrap_fallback_and_V2 (vxcm : XcmVersionedXcm) :
  (~ In (xcmType vxcm) knownVersions ->
     unwrapVersionedXcm vxcm
       = Normal {| version := "V5"; instructions := Sequence [] |})
  /\ (forall items,
        xcmType vxcm = "V2" -> xcmValue vxcm = Sequence items ->
        unwrapVersionedXcm vxcm
          = Normal {| version := "V2"; instructions := Sequence items |}).
Proof.
  split.
  - intros Hout. unfold unwrapVersionedXcm, isV1, isV2, isV3, isV4, isV5.
    assert (Hno : forall name, In name knownVersions -> isVariant name vxcm = false).
    { intros name Hin. apply isVariant_false. intros E. apply Hout.
      by rewrite E. }
    rewrite !Hno; [done|..]; unfold knownVersions; simpl; tauto.
  - intros items Htype Hvalue.
    unfold unwrapVersionedXcm, isV1, isV2, isV3, isV4, isV5, asV2, asVariant,
      isVariant.
    rewrite Htype, Hvalue. reflexivity.
Qed.

Lemma unwrap_fallback_and_V2_witness :
  unwrapVersionedXcm
    {| xcmType := "V0"; xcmValue := Wrapped []; xcmEncoded := [x00] |}
    = Normal {| version := "V5"; instructions := Sequence [] |}
  /\ unwrapVersionedXcm
       {| xcmType := "V2";
          xcmValue := Sequence [demoInstruction x00; demoInstruction x02];
          xcmEncoded := [x02; x02; x00; x02] |}
     = Normal {| version := "V2";
                 instructions :=
                   Sequence [demoInstruction x00; demoInstruction x02] |}.
Proof.
  split.
  - apply (unwrap_fallback_and_V2
             {| xcmType := "V0"; xcmValue := Wrapped []; xcmEncoded := [x00] |}).
    unfold knownVersions; simpl. intros H.
    repeat (destruct H as [H|H]; [discriminate H|]). exact H.
  - apply (unwrap_fallback_and_V2
             {| xcmType := "V2";
                xcmValue := Sequence [demoInstruction x00; demoInstruction x02];
                xcmEncoded := [x02; x02; x00; x02] |});
      reflexivity.
Defined.

(** Whatever the payload of a V1 message is, it is returned as it
    stands: both arms of the [Array.isArray] test hold the same value. *)
Lemma unwrap_V1 (vxcm : XcmVersionedXcm) :
  xcmType vxcm = "V1" ->
  unwrapVersionedXcm vxcm
    = Normal {| version := "V1"; instructions := xcmValue vxcm |}.
Proof.
  intros Htype.
  unfold unwrapVersionedXcm, isV1, isV2, isV3, isV4, isV5, asV1, asVariant,
    isVariant.
  rewrite Htype. simpl. by destruct (Array_isArray (xcmValue vxcm)).
Qed.

(** C4.  The V1 branch at a payload wrapped one level: the claim asks for
    the inner sequence; the unwrapper returns the wrapper itself, which is
    not a sequence.  A bare sequence is returned as it is. *)
Theorem unwrap_V1_keeps_wrapper :
  unwrapVersionedXcm wrappedV1
    = Normal {| version := "V1";
                instructions :=
                  Wrapped [demoInstruction x00; demoInstruction x02] |}
  /\ unwrapVersionedXcm wrappedV1
       <> Normal {| version := "V1";
                    instructions :=
                      Sequence [demoInstruction x00; demoInstruction x02] |}
  /\ unwrapVersionedXcm
       {| xcmType := "V1";
          xcmValue := Sequence [demoInstruction x00; demoInstruction x02];
          xcmEncoded := xcmEncoded wrappedV1 |}
     = Normal {| version := "V1";
                 instructions :=
                   Sequence [demoInstruction x00; demoInstruction x02] |}.
Proof.
  split; [|split].
  - by rewrite unwrap_V1.
  - rewrite unwrap_V1 by done. discriminate.
  - by rewrite unwrap_V1.
Qed.

(** ** The instruction classifier *)

Section Classifier.
Context {I : Type} `{InstructionLike I}.

(** The chain of tests is the first-match scan of the table. *)
Lemma classify_firstMatch (instr : I) :
  classifyInstruction instr = firstMatch classificationTable instr.
Proof. reflexivity. Qed.

(** A label is returned exactly when some entry matches, and it is the
    label of the first one. *)
Lemma firstMatch_Some (table : list ((I -> bool) * string)) instr label :
  firstMatch table instr = Some label <->
  exists before test after,
    table = before ++ (test, label) :: after
    /\ test instr = true
    /\ Forall (fun entry => fst entry instr = false) before.
Proof.
  induction table as [|[test0 label0] table IH]; simpl.
  - split; [discriminate|]. intros (before & ? & ? & E & _).
    by destruct before.
  - destruct (test0 instr) eqn:E0; split.
    + intros [= <-]. exists [], test0, table. by repeat split.
    + intros (before & test & after & E & Ht & Hb).
      destruct before as [|entry before]; simpl in E.
      * injection E as ? ? ?. by subst.
      * injection E as ? ?. subst. apply Forall_cons in Hb as [Hb _].
        simpl in Hb. congruence.
    + intros Hm. apply IH in Hm as (before & test & after & -> & Ht & Hb).
      exists ((test0, label0) :: before), test, after.
      repeat split; [done|]. by constructor.
    + intros (before & test & after & E & Ht & Hb).
      destruct before as [|entry before]; simpl in E.
      * injection E as ? ? ?. subst. congruence.
      * injection E as ? ?. subst. apply Forall_cons in Hb as [_ Hb].
        apply IH. by exists before, test, after.
Qed.

Lemma firstMatch_None (table : list ((I -> bool) * string)) instr :
  firstMatch table instr = None <->
  Forall (fun entry => fst entry instr = false) table.
Proof.
  induction table as [|[test0 label0] table IH]; simpl.
  - split; [constructor|done].
  - destruct (test0 instr) eqn:E0; split.
    + discriminate.
    + intros Hall. apply Forall_cons in Hall as [Hall _]. simpl in Hall.
      congruence.
    + intros Hm. constructor; [done|]. by apply IH.
    + intros Hall. apply Forall_cons in Hall as [_ Hall]. by apply IH.
Qed.
End Classifier.

Lemma hasType_true name instr :
  hasType name instr = true <-> instrType instr = name.
Proof. apply String.eqb_eq. Qed.

Lemma hasType_false name instr :
  hasType name instr = false <-> instrType instr <> name.
Proof. apply String.eqb_neq. Qed.

(** C9.  The classifier returns the label of the first entry of the
    fixed, ordered, 15-entry table whose tag predicate holds of the
    instruction, and no label when none holds.  A DepositAsset
    instruction is labelled "Deposit Asset"; an instruction whose tag is
    not in the table gets no label.  The result is a function of the
    instruction's tag alone: no state is read or written. *)
Theorem classifier_first_match :
  (forall (I : Type) (L : InstructionLike I) (instr : I),
      classifyInstruction instr = firstMatch classificationTable instr
      /\ (forall label,
            classifyInstruction instr = Some label <->
            exists before test after,
              classificationTable = before ++ (test, label) :: after
              /\ test instr = true
              /\ Forall (fun entry => fst entry instr = false) before)
      /\ (classifyInstruction instr = None <->
          Forall (fun entry => fst entry instr = false) classificationTable))
  /\ length (classificationTable (I := Instruction)) = 15
  /\ (forall instr : Instruction,
        instrType instr = "DepositAsset" ->
        classifyInstruction instr = Some "Deposit Asset")
  /\ (forall instr : Instruction,
        ~ In (instrType instr) classifiedTypes ->
        classifyInstruction instr = None)
  /\ (forall i j : Instruction,
        instrType i = instrType j ->
        classifyInstruction i = classifyInstruction j).
Proof.
  split; [|split; [|split; [|split]]].
  - intros I L instr. split; [|split].
    + apply classify_firstMatch.
    + intros label. rewrite classify_firstMatch. apply firstMatch_Some.
    + rewrite classify_firstMatch. apply firstMatch_None.
  - reflexivity.
  - intros instr Htype. unfold classifyInstruction; simpl.
    unfold hasType. by rewrite Htype.
  - intros instr Hout. rewrite classify_firstMatch. apply firstMatch_None.
    assert (Hno : forall name, In name classifiedTypes -> hasType name instr = false).
    { intros name Hin. apply hasType_false. intros E. apply Hout.
      by rewrite E. }
    unfold classificationTable; simpl.
    repeat (constructor; [apply Hno; unfold classifiedTypes; simpl; tauto|]).
    constructor.
  - intros i j Htype. unfold classifyInstruction; simpl. unfold hasType.
    by rewrite Htype.
Qed.

Lemma classifier_first_match_witness :
  classifyInstruction (demoInstruction x02) = Some "Deposit Asset"
  /\ classifyInstruction (demoInstruction x03) = None.
Proof.
  destruct classifier_first_match as (_ & _ & Hdeposit & Hnone & _).
  split.
  - apply (Hdeposit (demoInstruction x02)). reflexivity.
  - apply (Hnone (demoInstruction x03)).
    unfold classifiedTypes; simpl. intros H.
    repeat (destruct H as [H|H]; [discriminate H|]). exact H.
Defined.

(** ** The hex guard *)

Lemma isHexDigit_hexChars c :
  isHexDigit c = true <-> In c hexChars.
Proof.
  assert (E : isHexDigit c = existsb (Ascii.eqb c) hexChars).
  { destruct c as [[] [] [] [] [] [] [] []]; reflexivity. }
  rewrite E, existsb_exists. split.
  - intros (x & Hin & Heq). apply Ascii.eqb_eq in Heq. by subst.
  - intros Hin. exists c. split; [done|]. apply Ascii.eqb_refl.
Qed.

Lemma stripPrefix_eqb s :
  stripPrefix s =
    match s with
    | String c0 (String c1 rest) =>
        if Ascii.eqb c0 "0" && Ascii.eqb c1 "x" then rest else s
    | _ => s
    end.
Proof.
  destruct s as [|c0 [|c1 rest]]; [reflexivity| |].
  - destruct c0 as [[] [] [] [] [] [] [] []]; reflexivity.
  - destruct c0 as [[] [] [] [] [] [] [] []]; try reflexivity.
    destruct c1 as [[] [] [] [] [] [] [] []]; reflexivity.
Qed.

Lemma stripPrefix_cases input :
  input = stripPrefix input \/ input = "0x" +:+ stripPrefix input.
Proof.
  rewrite stripPrefix_eqb.
  destruct input as [|c0 [|c1 rest]]; auto.
  destruct (Ascii.eqb_spec c0 "0"%char) as [->|N0]; [|by left].
  destruct (Ascii.eqb_spec c1 "x"%char) as [->|N1]; [by right|by left].
Qed.

Lemma stripPrefix_prefixed s : stripPrefix ("0x" +:+ s) = s.
Proof. reflexivity. Qed.

(** A string of hex digits has no prefix to strip. *)
Lemma stripPrefix_digits digits :
  Forall (fun c => In c hexChars) digits ->
  stripPrefix (string_of_list_ascii digits) = string_of_list_ascii digits.
Proof.
  intros Hall. rewrite stripPrefix_eqb.
  destruct digits as [|c0 [|c1 rest]]; try reflexivity. simpl.
  destruct (Ascii.eqb_spec c1 "x"%char) as [->|N1];
    [|by rewrite andb_false_r].
  exfalso. apply Forall_cons in Hall as [_ Hall].
  apply Forall_cons in Hall as [Hx _].
  apply isHexDigit_hexChars in Hx. discriminate Hx.
Qed.

Lemma forallb_isHexDigit digits :
  forallb isHexDigit digits = true <-> Forall (fun c => In c hexChars) digits.
Proof.
  rewrite forallb_forall, Forall_forall. split; intros Hall c Hc.
  - apply isHexDigit_hexChars, Hall. by apply list_elem_of_In.
  - apply isHexDigit_hexChars, Hall. by apply list_elem_of_In.
Qed.

(** The guard's test is the strict hex format of the spec. *)
Lemma isHex_strictHex input : isHex input = true <-> strictHex input.
Proof.
  unfold isHex, strictHex. rewrite andb_true_iff, forallb_isHexDigit,
    Nat.even_spec. split.
  - intros [Hall Heven].
    exists (list_ascii_of_string (stripPrefix input)).
    rewrite string_of_list_ascii_of_string. split; [|done].
    apply stripPrefix_cases.
  - intros (digits & [->| ->] & Hall & Heven).
    + by rewrite stripPrefix_digits, list_ascii_of_string_of_list_ascii.
    + by rewrite stripPrefix_prefixed, list_ascii_of_string_of_list_ascii.
Qed.

Lemma hexToU8aSafe_accepts input w :
  isHex input = true ->
  hexToU8aSafe input w
    = Some (Normal (fresh (dom (buffers w))),
            {| buffers := <[fresh (dom (buffers w)) := hexToU8a input]> (buffers w);
               createTypeCalls := createTypeCalls w;
               stderr := stderr w |}).
Proof. intros E. unfold hexToU8aSafe. by rewrite E. Qed.

Lemma hexToU8aSafe_rejects input w :
  isHex input = false ->
  hexToU8aSafe input w = Some (Throw InputFormatError, w).
Proof. intros E. unfold hexToU8aSafe. by rewrite E. Qed.

Lemma decode_U8a fuel provider r w :
  decodeMessageIntoFragmentVec fuel provider (U8a r) w =
    match splitLoop fuel provider r [] w with
    | Some (Normal out, w') => Some (Normal (fst out), w')
    | Some (Throw e, w') => Some (Throw e, w')
    | None => None
    end.
Proof.
  unfold decodeMessageIntoFragmentVec, bind, ret.
  by destruct (splitLoop fuel provider r [] w) as [[[out|e] w']|].
Qed.

(** C5.  A string input is accepted exactly when it has the strict hex
    format: an optional [0x] prefix, then hexadecimal digits only, an even
    number of them.  Any other string, in particular one with an odd
    number of digits or with a character that is no hex digit, makes the
    call throw the input format error with the state as it was: no decode
    was attempted. *)
Theorem hex_guard_before_decode (input : string) :
  (forall w,
      (exists r w', hexToU8aSafe input w = Some (Normal r, w'))
      <-> strictHex input)
  /\ (strictHex input ->
      forall w, exists r w',
        hexToU8aSafe input w = Some (Normal r, w')
        /\ buffers w' !!! r = hexToU8a input
        /\ createTypeCalls w' = createTypeCalls w)
  /\ (~ strictHex input ->
      forall fuel provider w,
        hexToU8aSafe input w = Some (Throw InputFormatError, w)
        /\ decodeMessageIntoFragmentVec fuel provider (Str input) w
           = Some (Throw InputFormatError, w))
  /\ (Nat.Odd (length (list_ascii_of_string (stripPrefix input))) ->
      ~ strictHex input)
  /\ ((exists c, In c (list_ascii_of_string (stripPrefix input))
                 /\ ~ In c hexChars) ->
      ~ strictHex input).
Proof.
  split; [|split; [|split; [|split]]].
  - intros w. rewrite <- isHex_strictHex. split.
    + intros (r & w' & Hrun). destruct (isHex input) eqn:E; [done|].
      rewrite hexToU8aSafe_rejects in Hrun by done. discriminate.
    + intros E. rewrite hexToU8aSafe_accepts by done. by eexists _, _.
  - intros Hs w. apply isHex_strictHex in Hs.
    rewrite hexToU8aSafe_accepts by done. eexists _, _.
    split; [done|]. simpl. by rewrite lookup_total_insert_eq.
  - intros Hs fuel provider w.
    assert (E : isHex input = false).
    { destruct (isHex input) eqn:E; [|done]. by apply isHex_strictHex in E. }
    split; [by apply hexToU8aSafe_rejects|].
    unfold decodeMessageIntoFragmentVec, bind.
    by rewrite hexToU8aSafe_rejects.
  - intros Hodd Hs. apply isHex_strictHex in Hs. unfold isHex in Hs.
    apply andb_true_iff in Hs as [_ Heven]. apply Nat.even_spec in Heven.
    by apply (Nat.Even_Odd_False _ Heven).
  - intros (c & Hin & Hnot) Hs. apply isHex_strictHex in Hs. unfold isHex in Hs.
    apply andb_true_iff in Hs as [Hall _].
    rewrite forallb_forall in Hall. apply Hnot, isHexDigit_hexChars, Hall, Hin.
Qed.

Lemma hex_guard_before_decode_witness :
  (exists r w',
      hexToU8aSafe "0x0302" (callerWorld []) = Some (Normal r, w')
      /\ buffers w' !!! r = [x03; x02])
  /\ decodeMessageIntoFragmentVec 5 (demoProvider primarySchema)
       (Str "0x030") (callerWorld [])
     = Some (Throw InputFormatError, callerWorld [])
  /\ decodeMessageIntoFragmentVec 5 (demoProvider primarySchema)
       (Str "03g2") (callerWorld [])
     = Some (Throw InputFormatError, callerWorld []).
Proof.
  split; [|split].
  - destruct (hex_guard_before_decode "0x0302") as (_ & Hok & _).
    destruct (Hok ltac:(apply isHex_strictHex; reflexivity) (callerWorld []))
      as (r & w' & Hrun & Hbuf & _).
    exists r, w'. split; [exact Hrun|]. rewrite Hbuf. reflexivity.
  - destruct (hex_guard_before_decode "0x030") as (_ & _ & Hbad & Hodd & _).
    apply Hbad, Hodd. exists 1. reflexivity.
  - destruct (hex_guard_before_decode "03g2") as (_ & _ & Hbad & _ & Hchar).
    apply Hbad, Hchar. exists "g"%char. split.
    + simpl. tauto.
    + unfold hexChars; simpl. intros H.
      repeat (destruct H as [H|H]; [discriminate H|]). exact H.
Defined.

(** ** The type resolver, with its bookkeeping *)

(** C7, as stated, where both schemas fail with a decode error on one
    side and a type lookup error on the other.  The line printed is the
    message of the fallback attempt in both arrangements: the lookup error
    when the decode error came first, the decode error when the lookup
    error came first; and an empty message of the fallback is printed
    although the primary's error says what went wrong.  So what is
    reported follows the position of the attempt, and no choice that
    depends on the two errors alone, whichever of them counts as the more
    specific, gives the line the code prints. *)
Lemma fallback_error_reported_whatever_it_is :
  let decodeError := Error "Unexpected end of input" in
  let lookupError := Error "Unable to find type StagingXcmVersionedXcm" in
  resolveFragment (failingProvider decodeError lookupError) 0
    (callerWorld [x09])
  = Some (Normal None,
          recorded (callerWorld [x09])
            [(primarySchema, [x09]); (fallbackSchema, [x09])]
            ["Unable to find type StagingXcmVersionedXcm"])
  /\ resolveFragment (failingProvider lookupError decodeError) 0
       (callerWorld [x09])
     = Some (Normal None,
             recorded (callerWorld [x09])
               [(primarySchema, [x09]); (fallbackSchema, [x09])]
               ["Unexpected end of input"])
  /\ resolveFragment (failingProvider decodeError (Error "")) 0
       (callerWorld [x09])
     = Some (Normal None,
             recorded (callerWorld [x09])
               [(primarySchema, [x09]); (fallbackSchema, [x09])]
               [EmptyString])
  /\ ~ (exists mostSpecific : JsError -> JsError -> JsError,
          (forall a b, mostSpecific a b = mostSpecific b a)
          /\ forall e1 e2 w',
               resolveFragment (failingProvider e1 e2) 0 (callerWorld [x09])
                 = Some (Normal None, w') ->
               stderr w'
               = [nullish (message (mostSpecific e1 e2))
                    "Failed to decode XcmVersionedXcm"]).
Proof.
  intros decodeError lookupError. split; [reflexivity|]. split; [reflexivity|].
  split; [reflexivity|].
  intros (mostSpecific & Hsym & Hline).
  pose proof (Hline decodeError lookupError _ eq_refl) as H1.
  pose proof (Hline lookupError decodeError _ eq_refl) as H2.
  rewrite (Hsym lookupError decodeError) in H2.
  simpl in H1, H2. rewrite <- H1 in H2. discriminate H2.
Qed.

(** C7, amended.  The primary schema is tried first, on the bytes of the
    remaining buffer.  When it decodes, its value is the result and the
    fallback schema is not tried.  When it fails, the fallback schema is
    tried on the same bytes; its value is the result when it decodes.
    When both fail there is no fragment, nothing is thrown, and one line
    is printed: the message of the fallback's error when it has one, else
    the message of the primary's error when it has one, else the fixed
    text. *)
Theorem resolver_primary_then_fallback provider r w :
  let b := buffers w !!! r in
  (forall fragment,
      createType provider primarySchema b = inr fragment ->
      resolveFragment provider r w
        = Some (Normal (Some fragment), recorded w [(primarySchema, b)] []))
  /\ (forall e1 fragment,
        createType provider primarySchema b = inl e1 ->
        createType provider fallbackSchema b = inr fragment ->
        resolveFragment provider r w
          = Some (Normal (Some fragment),
                  recorded w [(primarySchema, b); (fallbackSchema, b)] []))
  /\ (forall e1 e2,
        createType provider primarySchema b = inl e1 ->
        createType provider fallbackSchema b = inl e2 ->
        resolveFragment provider r w
          = Some (Normal None,
                  recorded w [(primarySchema, b); (fallbackSchema, b)]
                             [failureLine e1 e2])
        /\ (forall text, message e2 = Some text -> failureLine e1 e2 = text)
        /\ (forall text,
              message e2 = None -> message e1 = Some text ->
              failureLine e1 e2 = text)
        /\ (message e2 = None -> message e1 = None ->
            failureLine e1 e2 = "Failed to decode XcmVersionedXcm"))
  /\ (exists calls lines result,
        resolveFragment provider r w = Some (Normal result, recorded w calls lines)
        /\ head calls = Some (primarySchema, b)
        /\ (In (fallbackSchema, b) calls
            <-> exists e1, createType provider primarySchema b = inl e1))
  /\ (forall e1 e2,
        createType provider primarySchema b = inl e1 ->
        createType provider fallbackSchema b = inl e2 ->
        exists w',
          resolveFragment provider r w = Some (Normal None, w')
          /\ buffers w' = buffers w
          /\ (forall text,
                message e2 = Some text -> stderr w' = stderr w ++ [text])
          /\ (forall text,
                message e2 = None -> message e1 = Some text ->
                stderr w' = stderr w ++ [text])
          /\ (message e2 = None -> message e1 = None ->
              stderr w' = stderr w ++ ["Failed to decode XcmVersionedXcm"])).
Proof.
  intros b. split; [|split; [|split; [|split]]].
  - intros fragment E1. rewrite resolveFragment_resolve. fold b. by rewrite E1.
  - intros e1 fragment E1 E2. rewrite resolveFragment_resolve. fold b.
    by rewrite E1, E2.
  - intros e1 e2 E1 E2. split; [|split; [|split]].
    + rewrite resolveFragment_resolve. fold b. by rewrite E1, E2.
    + intros text Hm. unfold failureLine. by rewrite Hm.
    + intros text Hm2 Hm1. unfold failureLine. by rewrite Hm2, Hm1.
    + intros Hm2 Hm1. unfold failureLine. by rewrite Hm2, Hm1.
  - rewrite resolveFragment_resolve. fold b.
    destruct (createType provider primarySchema b) as [e1|f1].
    + destruct (createType provider fallbackSchema b) as [e2|f2];
        eexists _, _, _; (split; [reflexivity|]); (split; [reflexivity|]);
        (split; [by eexists|]); intros _; simpl; tauto.
    + eexists _, _, _. split; [reflexivity|]. split; [reflexivity|].
      split; [|by intros [? ?]].
      simpl. intros [H|[]]. discriminate H.
  - intros e1 e2 E1 E2. eexists. split.
    { rewrite resolveFragment_resolve. fold b. by rewrite E1, E2. }
    split; [reflexivity|]. unfold failureLine; simpl. split; [|split].
    + intros text Hm. by rewrite Hm.
    + intros text Hm2 Hm1. by rewrite Hm2, Hm1.
    + intros Hm2 Hm1. by rewrite Hm2, Hm1.
Qed.

Lemma resolver_primary_then_fallback_witness :
  resolveFragment (demoProvider fallbackSchema) 0 (callerWorld demoMessage)
    = Some (Normal (Some {| xcmType := "V3";
                            xcmValue := Sequence [demoInstruction x00;
                                                  demoInstruction x02];
                            xcmEncoded := demoMessage |}),
            recorded (callerWorld demoMessage)
              [(primarySchema, demoMessage); (fallbackSchema, demoMessage)] [])
  /\ resolveFragment (demoProvider primarySchema) 0 (callerWorld [x09])
     = Some (Normal None,
             recorded (callerWorld [x09])
               [(primarySchema, [x09]); (fallbackSchema, [x09])]
               ["Unable to find type StagingXcmVersionedXcm"]).
Proof.
  split.
  - destruct (resolver_primary_then_fallback (demoProvider fallbackSchema) 0
                (callerWorld demoMessage)) as (_ & Hfallback & _).
    apply (Hfallback (Error ("Unable to find type " +:+ primarySchema)));
      reflexivity.
  - destruct (resolver_primary_then_fallback (demoProvider primarySchema) 0
                (callerWorld [x09])) as (_ & _ & Hboth & _).
    apply (Hboth (Error "Unexpected end of input")
                 (Error ("Unable to find type " +:+ fallbackSchema)));
      reflexivity.
Defined.

(** ** The splitter *)

(** After [k] passes the loop is where [passes] says, and nothing was
    printed. *)
Lemma splitLoop_passes provider k :
  forall acc r w decoded remainder fuel,
    passes k provider acc (buffers w !!! r) = Some (decoded, remainder) ->
    exists r' w',
      splitLoop (k + fuel) provider r acc w = splitLoop fuel provider r' decoded w'
      /\ buffers w' !!! r' = remainder
      /\ buffers w ⊆ buffers w'
      /\ stderr w' = stderr w.
Proof.
  induction k as [|k IH]; intros acc r w decoded remainder fuel Hp.
  - injection Hp as <- <-. by exists r, w.
  - cbn [passes] in Hp.
    destruct (length (buffers w !!! r) =? 0) eqn:El; [discriminate|].
    assert (Hne : buffers w !!! r <> []).
    { intros He. by rewrite He in El. }
    destruct (resolve provider (buffers w !!! r)) as [|fragment] eqn:Hres;
      [discriminate|].
    destruct (splitLoop_step (k + fuel) provider r acc w fragment Hne Hres)
      as (r1 & w1 & Hstep & Hbuf & Hsub & Herr).
    rewrite <- Hbuf in Hp.
    destruct (IH _ r1 w1 _ _ fuel Hp) as (r' & w' & Hrun & Hrem & Hsub' & Herr').
    exists r', w'. cbn [Nat.add]. rewrite Hstep, Hrun.
    repeat split; [done| |congruence]. by etrans.
Qed.

(** An input that is one valid fragment: one pass, then the exit. *)
Lemma decode_single provider r w input fragment fuel :
  buffers w !! r = Some input ->
  input <> [] ->
  validFragment provider input fragment ->
  exists r' w',
    splitLoop (S (S fuel)) provider r [] w = Some (Normal ([fragment], r'), w')
    /\ buffers w' !!! r' = []
    /\ buffers w ⊆ buffers w'.
Proof.
  intros Hbuf Hne [Hres Henc]. apply lookup_total_of_lookup in Hbuf.
  pose proof (splitLoop_fragmentsOf provider (S (S fuel)) r [] w) as Hrun.
  rewrite Hbuf in Hrun. cbn [fragmentsOf] in Hrun.
  destruct (length input =? 0) eqn:El.
  { apply Nat.eqb_eq in El. by destruct input. }
  rewrite Hres, Henc, drop_all in Hrun. cbn [length Nat.eqb app] in Hrun.
  destruct Hrun as (r' & w' & Hrun & Hrem & Hsub). by exists r', w'.
Qed.

(** C1.  When the input is exactly one valid encoded fragment (a buffer
    of at least one byte that the capability decodes, the decoded value
    re-encoding to the whole input), the splitter decodes it in a single
    pass of the loop:
    one unit of fuel does not reach the exit, two do, and so does any
    larger amount.  The buffer left is empty, the result is the
    one-element list holding the decoded message, and its re-encoding is
    the input, byte for byte. *)
Theorem single_fragment_round_trip provider r w input fragment :
  buffers w !! r = Some input ->
  input <> [] ->
  validFragment provider input fragment ->
  splitLoop 1 provider r [] w = None
  /\ forall fuel,
       exists r' w',
         splitLoop (S (S fuel)) provider r [] w
           = Some (Normal ([fragment], r'), w')
         /\ buffers w' !!! r' = []
         /\ decodeMessageIntoFragmentVec (S (S fuel)) provider (U8a r) w
            = Some (Normal [fragment], w')
         /\ map xcmEncoded [fragment] = [input].
Proof.
  intros Hbuf Hne Hvalid. split.
  - pose proof (splitLoop_fragmentsOf provider 1 r [] w) as Hrun.
    rewrite (lookup_total_of_lookup _ _ _ Hbuf) in Hrun.
    cbn [fragmentsOf] in Hrun. destruct Hvalid as [Hres _].
    destruct (length input =? 0) eqn:El.
    { apply Nat.eqb_eq in El. by destruct input. }
    by rewrite Hres in Hrun.
  - intros fuel.
    destruct (decode_single provider r w input fragment fuel Hbuf Hne Hvalid)
      as (r' & w' & Hrun & Hrem & _).
    exists r', w'. rewrite decode_U8a, Hrun.
    repeat split; [done|]. destruct Hvalid as [_ Henc]. simpl. by rewrite Henc.
Qed.

(** The demo format under its registered name. *)
Lemma demo_resolve_primary b :
  resolve (demoProvider primarySchema) b =
    match demoDecode b with
    | inr fragment => inr fragment
    | inl e1 => inl (e1, Error ("Unable to find type " +:+ fallbackSchema))
    end.
Proof. unfold resolve; simpl. by destruct (demoDecode b). Qed.

Lemma demo_makesProgress registered : makesProgress (demoProvider registered).
Proof.
  intros name b fragment. simpl.
  destruct (String.eqb name registered); [|discriminate].
  unfold demoDecode. destruct b as [|v [|n rest]]; try discriminate.
  destruct (Byte.to_nat n <=? length rest); [|discriminate].
  by intros [= <-].
Qed.

Lemma demo_selfDelimiting : selfDelimiting (demoProvider primarySchema).
Proof.
  intros b fragment rest _ [Hres Henc].
  rewrite demo_resolve_primary in Hres |- *.
  destruct b as [|v [|n body]]; try discriminate. simpl in Hres |- *.
  destruct (Byte.to_nat n <=? length body) eqn:Hle; [|discriminate].
  apply Nat.leb_le in Hle. injection Hres as <-. simpl in Henc.
  injection Henc as Henc.
  assert (Hlen : length body = Byte.to_nat n).
  { apply (f_equal length) in Henc. rewrite length_take in Henc. lia. }
  rewrite length_app.
  destruct (Byte.to_nat n <=? length body + length rest) eqn:Hle';
    [|apply Nat.leb_gt in Hle'; lia].
  by rewrite take_app_le by lia.
Qed.

Lemma single_fragment_round_trip_witness :
  exists r' w',
    splitLoop 2 (demoProvider primarySchema) 0 [] (callerWorld demoMessage)
      = Some (Normal ([ {| xcmType := "V3";
                           xcmValue := Sequence [demoInstruction x00;
                                                 demoInstruction x02];
                           xcmEncoded := demoMessage |} ], r'), w')
    /\ buffers w' !!! r' = [].
Proof.
  destruct (single_fragment_round_trip (demoProvider primarySchema) 0
              (callerWorld demoMessage) demoMessage
              {| xcmType := "V3";
                 xcmValue := Sequence [demoInstruction x00; demoInstruction x02];
                 xcmEncoded := demoMessage |})
    as [_ Hrun].
  - reflexivity.
  - discriminate.
  - split; reflexivity.
  - destruct (Hrun 0) as (r' & w' & Hloop & Hrem & _).
    exists r', w'. split; assumption.
Defined.

(** C2, as stated, at a capability that decodes one-byte buffers only:
    the bytes 01 and 02 are each a valid fragment on their own, yet their
    concatenation decodes under neither schema, and the splitter returns
    no message at all. *)
Lemma concatenation_needs_self_delimiting :
  let fa := {| xcmType := "V5"; xcmValue := Sequence []; xcmEncoded := [x01] |} in
  let fb := {| xcmType := "V5"; xcmValue := Sequence []; xcmEncoded := [x02] |} in
  validFragment exactProvider [x01] fa
  /\ validFragment exactProvider [x02] fb
  /\ (exists w',
        decodeMessageIntoFragmentVec 3 exactProvider (U8a 0)
          (callerWorld ([x01] ++ [x02])) = Some (Normal [], w'))
  /\ ~ (exists fuel w',
          decodeMessageIntoFragmentVec fuel exactProvider (U8a 0)
            (callerWorld ([x01] ++ [x02])) = Some (Normal [fa; fb], w')).
Proof.
  intros fa fb. split; [by split|]. split; [by split|].
  split; [by eexists|].
  intros (fuel & w' & Hrun). rewrite decode_U8a in Hrun.
  destruct fuel as [|fuel]; [discriminate|].
  rewrite (splitLoop_break _ _ _ _ _ (Error "Expected one byte")
             (Error "Expected one byte")) in Hrun; [discriminate|discriminate|].
  reflexivity.
Qed.

(** C2, amended.  Let the decode capability be self-delimiting: a buffer
    that starts with a valid fragment decodes to that fragment, whatever
    bytes follow.  Then for all byte sequences [a] and [b] that are each a
    valid single fragment (at least one byte long, decoded standalone to
    [fa] and [fb], each re-encoding to itself), decoding [a ++ b] yields
    exactly the two messages [fa], [fb], in this order; and they are the
    messages that decoding [a] alone and [b] alone yield. *)
Theorem concatenation_law provider r w a b fa fb :
  selfDelimiting provider ->
  buffers w !! r = Some (a ++ b) ->
  a <> [] -> b <> [] ->
  validFragment provider a fa ->
  validFragment provider b fb ->
  (forall fuel, exists w',
      decodeMessageIntoFragmentVec (S (S (S fuel))) provider (U8a r) w
        = Some (Normal [fa; fb], w'))
  /\ (forall fuel ra wa,
        buffers wa !! ra = Some a ->
        exists w',
          decodeMessageIntoFragmentVec (S (S fuel)) provider (U8a ra) wa
            = Some (Normal [fa], w'))
  /\ (forall fuel rb wb,
        buffers wb !! rb = Some b ->
        exists w',
          decodeMessageIntoFragmentVec (S (S fuel)) provider (U8a rb) wb
            = Some (Normal [fb], w')).
Proof.
  intros Hself Hbuf Ha Hb Hva Hvb. split; [|split].
  - intros fuel. apply lookup_total_of_lookup in Hbuf.
    pose proof (splitLoop_fragmentsOf provider (S (S (S fuel))) r [] w) as Hrun.
    rewrite Hbuf in Hrun. cbn [fragmentsOf] in Hrun.
    destruct (length (a ++ b) =? 0) eqn:El.
    { apply Nat.eqb_eq in El. rewrite length_app in El. by destruct a. }
    rewrite (Hself a fa b Ha Hva) in Hrun.
    destruct Hva as [_ Hea]. destruct Hvb as [Hrb Heb].
    rewrite Hea, drop_app_length in Hrun.
    destruct (length b =? 0) eqn:El'.
    { apply Nat.eqb_eq in El'. by destruct b. }
    rewrite Hrb, Heb, drop_all in Hrun. cbn [length Nat.eqb app] in Hrun.
    destruct Hrun as (r' & w' & Hrun & _). exists w'.
    by rewrite decode_U8a, Hrun.
  - intros fuel ra wa Hbufa.
    destruct (decode_single provider ra wa a fa fuel Hbufa Ha Hva)
      as (r' & w' & Hrun & _).
    exists w'. by rewrite decode_U8a, Hrun.
  - intros fuel rb wb Hbufb.
    destruct (decode_single provider rb wb b fb fuel Hbufb Hb Hvb)
      as (r' & w' & Hrun & _).
    exists w'. by rewrite decode_U8a, Hrun.
Qed.

Lemma concatenation_law_witness :
  exists w',
    decodeMessageIntoFragmentVec 3 (demoProvider primarySchema) (U8a 0)
      (callerWorld (demoMessage ++ [x05; x00]))
    = Some (Normal [ {| xcmType := "V3";
                        xcmValue := Sequence [demoInstruction x00;
                                              demoInstruction x02];
                        xcmEncoded := demoMessage |};
                     {| xcmType := "V5";
                        xcmValue := Sequence [];
                        xcmEncoded := [x05; x00] |} ], w').
Proof.
  destruct (concatenation_law (demoProvider primarySchema) 0
              (callerWorld (demoMessage ++ [x05; x00]))
              demoMessage [x05; x00]
              {| xcmType := "V3";
                 xcmValue := Sequence [demoInstruction x00; demoInstruction x02];
                 xcmEncoded := demoMessage |}
              {| xcmType := "V5"; xcmValue := Sequence [];
                 xcmEncoded := [x05; x00] |})
    as [Hrun _].
  - exact demo_selfDelimiting.
  - reflexivity.
  - discriminate.
  - discriminate.
  - split; reflexivity.
  - split; reflexivity.
  - exact (Hrun 0).
Defined.

(** The stalled loop: a decoded value that re-encodes to no byte leaves
    the buffer as it is, and no amount of fuel reaches the exit. *)
Lemma stall_fragmentsOf fuel :
  forall b, b <> [] -> fragmentsOf fuel stallProvider b = None.
Proof.
  induction fuel as [|fuel IH]; intros b Hb; [reflexivity|].
  cbn [fragmentsOf].
  destruct (length b =? 0) eqn:El.
  { apply Nat.eqb_eq in El. by destruct b. }
  simpl. by rewrite IH.
Qed.

(** C8, as stated, at a capability whose every decode succeeds with a
    value that re-encodes to zero bytes: on the one-byte buffer 00 the
    loop never stops. *)
Lemma stalled_loop_never_stops :
  ~ (exists fuel out,
       splitLoop fuel stallProvider 0 [] (callerWorld [x00]) = Some out).
Proof.
  intros (fuel & out & Hrun).
  pose proof (splitLoop_fragmentsOf stallProvider fuel 0 [] (callerWorld [x00]))
    as Hview.
  change (buffers (callerWorld [x00]) !!! 0) with [x00] in Hview.
  rewrite stall_fragmentsOf in Hview by discriminate. congruence.
Qed.

(** C8, amended.  When every value the capability decodes re-encodes to
    at least one byte, the loop terminates on every buffer: fuel beyond
    the length of the buffer is never used up.  It stops exactly when the
    remaining buffer is empty or a decode attempt fails under both
    schemas: on a non-empty buffer that a schema decodes it does not stop
    but goes on with the fragment appended and the buffer cut by the
    length of the re-encoding, hence strictly shorter; on an empty buffer
    it stops at once, with the fragments and the state as they are; on a
    non-empty buffer that fails under both schemas it stops at once, with
    the fragments as they are and one error line printed. *)
Theorem loop_terminates_with_progress provider r w input :
  makesProgress provider ->
  buffers w !! r = Some input ->
  (forall fuel,
      length input < fuel ->
      exists fragments r' w',
        splitLoop fuel provider r [] w = Some (Normal (fragments, r'), w')
        /\ (buffers w' !!! r' = []
            \/ exists e1 e2,
                 resolve provider (buffers w' !!! r') = inl (e1, e2)))
  /\ (forall fuel r0 acc w0 fragment,
        buffers w0 !!! r0 <> [] ->
        resolve provider (buffers w0 !!! r0) = inr fragment ->
        exists r1 w1,
          splitLoop (S fuel) provider r0 acc w0
            = splitLoop fuel provider r1 (acc ++ [fragment]) w1
          /\ length (buffers w1 !!! r1) < length (buffers w0 !!! r0)
          /\ buffers w1 !!! r1
             = drop (length (xcmEncoded fragment)) (buffers w0 !!! r0))
  /\ (forall fuel r0 acc w0,
        buffers w0 !!! r0 = [] ->
        splitLoop (S fuel) provider r0 acc w0 = Some (Normal (acc, r0), w0))
  /\ (forall fuel r0 acc w0 e1 e2,
        buffers w0 !!! r0 <> [] ->
        resolve provider (buffers w0 !!! r0) = inl (e1, e2) ->
        splitLoop (S fuel) provider r0 acc w0
          = Some (Normal (acc, r0),
                  recorded w0 [(primarySchema, buffers w0 !!! r0);
                               (fallbackSchema, buffers w0 !!! r0)]
                              [failureLine e1 e2])).
Proof.
  intros Hprog Hbuf. split; [|split; [|split]].
  - intros fuel Hfuel. apply lookup_total_of_lookup in Hbuf.
    destruct (fragmentsOf_terminates provider Hprog fuel input Hfuel)
      as (fragments & remainder & Hview & Hstop).
    pose proof (splitLoop_fragmentsOf provider fuel r [] w) as Hrun.
    rewrite Hbuf, Hview in Hrun.
    destruct Hrun as (r' & w' & Hrun & Hrem & _).
    exists fragments, r', w'. by rewrite Hrem.
  - intros fuel r0 acc w0 fragment Hne Hres.
    destruct (splitLoop_step fuel provider r0 acc w0 fragment Hne Hres)
      as (r1 & w1 & Hstep & Hrem & _).
    exists r1, w1. split; [done|]. split; [|done]. rewrite Hrem, length_drop.
    assert (Hpos : xcmEncoded fragment <> []).
    { unfold resolve in Hres.
      destruct (createType provider primarySchema _) eqn:E1.
      - destruct (createType provider fallbackSchema _) eqn:E2; [discriminate|].
        injection Hres as ->. by eapply Hprog.
      - injection Hres as ->. by eapply Hprog. }
    destruct (xcmEncoded fragment); [done|].
    destruct (buffers w0 !!! r0); [done|]. simpl. lia.
  - intros fuel r0 acc w0 He. by apply splitLoop_empty.
  - intros fuel r0 acc w0 e1 e2 Hne Hres. by apply splitLoop_break.
Qed.

Lemma loop_terminates_with_progress_witness :
  exists fragments r' w',
    splitLoop 8 (demoProvider primarySchema) 0 []
      (callerWorld (demoMessage ++ [x05; x00; x09]))
    = Some (Normal (fragments, r'), w')
    /\ (buffers w' !!! r' = []
        \/ exists e1 e2,
             resolve (demoProvider primarySchema) (buffers w' !!! r')
               = inl (e1, e2)).
Proof.
  destruct (loop_terminates_with_progress (demoProvider primarySchema) 0
              (callerWorld (demoMessage ++ [x05; x00; x09]))
              (demoMessage ++ [x05; x00; x09]))
    as [Hrun _].
  - apply demo_makesProgress.
  - reflexivity.
  - apply (Hrun 8). simpl. lia.
Defined.

(** ** The caller's buffer *)

(** [slice] hands out a new buffer: its reference was not in use, and no
    other buffer changes. *)
Lemma u8aSlice_fresh r start w :
  exists r' w',
    u8aSlice r start w = Some (Normal r', w')
    /\ (r' ∉ dom (buffers w))
    /\ buffers w' = <[r' := drop start (buffers w !!! r)]> (buffers w).
Proof.
  eexists _, _. split; [reflexivity|]. split; [apply is_fresh|reflexivity].
Qed.

(** C10.  The splitter does not write to the buffer it is given.  With a
    decode capability free of side effects, when the call returns the
    caller's buffer holds the bytes it held before, and so does every
    other buffer that existed; the loop only shrinks its own view, through
    [slice], which puts the bytes left into a buffer that was not in use. *)
Theorem caller_buffer_unchanged fuel provider r w input c w' :
  buffers w !! r = Some input ->
  decodeMessageIntoFragmentVec fuel provider (U8a r) w = Some (c, w') ->
  buffers w' !! r = Some input
  /\ buffers w ⊆ buffers w'
  /\ (forall r0 start w0, exists r1 w1,
        u8aSlice r0 start w0 = Some (Normal r1, w1)
        /\ (r1 ∉ dom (buffers w0))
        /\ buffers w1 = <[r1 := drop start (buffers w0 !!! r0)]> (buffers w0)).
Proof.
  intros Hbuf Hrun.
  assert (Hsub : buffers w ⊆ buffers w').
  { rewrite decode_U8a in Hrun.
    pose proof (splitLoop_fragmentsOf provider fuel r [] w) as Hview.
    destruct (fragmentsOf fuel provider (buffers w !!! r))
      as [[fragments remainder]|].
    - destruct Hview as (r' & w1 & Hloop & _ & Hsub). rewrite Hloop in Hrun.
      by injection Hrun as _ <-.
    - by rewrite Hview in Hrun. }
  split; [|split; [done|]].
  - by eapply lookup_weaken.
  - intros r0 start w0. apply u8aSlice_fresh.
Qed.

Lemma caller_buffer_unchanged_witness :
  exists c w',
    decodeMessageIntoFragmentVec 3 (demoProvider primarySchema) (U8a 0)
      (callerWorld (demoMessage ++ [x05; x00])) = Some (c, w')
    /\ buffers w' !! 0 = Some (demoMessage ++ [x05; x00]).
Proof.
  destruct (decodeMessageIntoFragmentVec 3 (demoProvider primarySchema) (U8a 0)
              (callerWorld (demoMessage ++ [x05; x00])))
    as [[c w']|] eqn:Hrun.
  - exists c, w'. split; [reflexivity|].
    exact (proj1 (caller_buffer_unchanged 3 (demoProvider primarySchema) 0
                    (callerWorld (demoMessage ++ [x05; x00]))
                    (demoMessage ++ [x05; x00]) c w' eq_refl Hrun)).
  - vm_compute in Hrun. discriminate Hrun.
Defined.

(** * Further properties *)

(** ** The splitter, seen from outside *)

(** One pass, with the decode attempts it records. *)
Lemma splitLoop_step_recorded fuel provider r acc w fragment calls :
  buffers w !!! r <> [] ->
  resolveFragment provider r w
    = Some (Normal (Some fragment), recorded w calls []) ->
  exists r' w',
    splitLoop (S fuel) provider r acc w
      = splitLoop fuel provider r' (acc ++ [fragment]) w'
    /\ buffers w' !!! r' = drop (encodedLength fragment) (buffers w !!! r)
    /\ buffers w ⊆ buffers w'
    /\ createTypeCalls w' = createTypeCalls w ++ calls
    /\ stderr w' = stderr w.
Proof.
  intros Hne Hrf.
  set (w1 := recorded w calls []) in *.
  set (r1 := fresh (dom (buffers w1))).
  set (h1 := <[r1 := xcmEncoded fragment]> (buffers w1)).
  set (r2 := fresh (dom h1)).
  exists r2,
    {| buffers := <[r2 := drop (encodedLength fragment) (buffers w !!! r)]> h1;
       createTypeCalls := createTypeCalls w1;
       stderr := stderr w1 |}.
  split; [|split; [|split; [|split]]].
  - cbn [splitLoop]. unfold bind at 1. unfold u8aLength at 1.
    unfold bind at 1, contents at 1, ret at 1.
    destruct (length (buffers w !!! r) =? 0) eqn:El.
    { apply Nat.eqb_eq in El. by destruct (buffers w !!! r). }
    unfold bind at 1. rewrite Hrf.
    unfold bind at 1, toU8a at 1, alloc at 1.
    fold r1. fold h1.
    unfold bind at 1, u8aLength at 1, bind at 1, contents at 1, ret at 1.
    cbn [buffers].
    unfold h1 at 1. rewrite lookup_total_insert_eq.
    unfold bind at 1, u8aSlice at 1, bind at 1, contents at 1, alloc at 1.
    cbn [buffers createTypeCalls stderr].
    assert (Hr : h1 !!! r = buffers w !!! r).
    { unfold h1, r1. by rewrite insert_fresh_other. }
    rewrite Hr. reflexivity.
  - cbn [buffers]. by rewrite lookup_total_insert_eq.
  - cbn [buffers]. etrans; [|apply insert_fresh_subseteq].
    unfold h1, r1. apply insert_fresh_subseteq.
  - reflexivity.
  - cbn [stderr]. unfold w1, recorded; simpl. by rewrite app_nil_r.
Qed.

(** Every run of the loop that ends has a trace: the fragments, the
    bytes left, the decode attempts and the lines printed are those of
    [SplitTrace] on the contents of the buffer. *)
Lemma splitLoop_trace provider fuel :
  forall r acc w result w',
    splitLoop fuel provider r acc w = Some (result, w') ->
    exists fragments remainder calls lines r',
      result = Normal (acc ++ fragments, r')
      /\ buffers w' !!! r' = remainder
      /\ SplitTrace provider (buffers w !!! r) fragments remainder calls lines
      /\ createTypeCalls w' = createTypeCalls w ++ calls
      /\ stderr w' = stderr w ++ lines
      /\ buffers w ⊆ buffers w'.
Proof.
  induction fuel as [|fuel IH]; intros r acc w result w' Hrun; [discriminate|].
  destruct (buffers w !!! r) as [|x b] eqn:Hb.
  { rewrite splitLoop_empty in Hrun by done. injection Hrun as <- <-.
    exists [], [], [], [], r. rewrite !app_nil_r.
    split; [done|]. split; [done|]. split; [apply trace_empty|done]. }
  assert (Hne : buffers w !!! r <> []) by by rewrite Hb.
  pose proof (resolveFragment_resolve provider r w) as Hrf.
  destruct (createType provider primarySchema (buffers w !!! r))
    as [e1|fragment] eqn:E1.
  - destruct (createType provider fallbackSchema (buffers w !!! r))
      as [e2|fragment] eqn:E2.
    + rewrite (splitLoop_break _ _ _ _ _ e1 e2) in Hrun;
        [|done|by unfold resolve; rewrite E1, E2].
      injection Hrun as <- <-.
      exists [], (x :: b), [(primarySchema, x :: b); (fallbackSchema, x :: b)],
        [failureLine e1 e2], r.
      rewrite app_nil_r. split; [done|]. split; [done|].
      split; [|by rewrite Hb].
      rewrite Hb in E1, E2. by apply (trace_break provider (x :: b) e1 e2).
    + destruct (splitLoop_step_recorded fuel provider r acc w fragment _ Hne Hrf)
        as (r1 & w1 & Hstep & Hbuf & Hsub & Hcalls & Herr).
      rewrite Hstep in Hrun.
      destruct (IH _ _ _ _ _ Hrun)
        as (fragments & remainder & calls & lines & r' & -> & Hrem & Htrace
            & Hcalls' & Herr' & Hsub').
      exists (fragment :: fragments), remainder,
        ((primarySchema, x :: b) :: (fallbackSchema, x :: b) :: calls), lines, r'.
      rewrite <- app_assoc. split; [done|]. split; [done|]. split.
      { rewrite Hbuf, Hb in Htrace. rewrite Hb in E1, E2.
        by apply (trace_fallback provider (x :: b) e1). }
      split; [by rewrite Hcalls', Hcalls, Hb, <- app_assoc|].
      split; [by rewrite Herr', Herr|]. by etrans.
  - destruct (splitLoop_step_recorded fuel provider r acc w fragment _ Hne Hrf)
      as (r1 & w1 & Hstep & Hbuf & Hsub & Hcalls & Herr).
    rewrite Hstep in Hrun.
    destruct (IH _ _ _ _ _ Hrun)
      as (fragments & remainder & calls & lines & r' & -> & Hrem & Htrace
          & Hcalls' & Herr' & Hsub').
    exists (fragment :: fragments), remainder,
      ((primarySchema, x :: b) :: calls), lines, r'.
    rewrite <- app_assoc. split; [done|]. split; [done|]. split.
    { rewrite Hbuf, Hb in Htrace. rewrite Hb in E1.
      by apply trace_primary. }
    split; [by rewrite Hcalls', Hcalls, Hb, <- app_assoc|].
    split; [by rewrite Herr', Herr|]. by etrans.
Qed.

Lemma decode_trace fuel provider r w result w' :
  decodeMessageIntoFragmentVec fuel provider (U8a r) w = Some (result, w') ->
  exists fragments remainder calls lines,
    result = Normal fragments
    /\ SplitTrace provider (buffers w !!! r) fragments remainder calls lines
    /\ createTypeCalls w' = createTypeCalls w ++ calls
    /\ stderr w' = stderr w ++ lines
    /\ buffers w ⊆ buffers w'.
Proof.
  rewrite decode_U8a. intros Hrun.
  destruct (splitLoop fuel provider r [] w) as [[loopResult w1]|] eqn:Hloop;
    [|discriminate].
  destruct (splitLoop_trace _ _ _ _ _ _ _ Hloop)
    as (fragments & remainder & calls & lines & r' & -> & _ & Htrace
        & Hcalls & Herr & Hsub).
  injection Hrun as <- <-. by exists fragments, remainder, calls, lines.
Qed.

Section Traces.
Context (provider : Provider).

Lemma trace_resolve_primary b fragment :
  createType provider primarySchema b = inr fragment ->
  resolve provider b = inr fragment.
Proof. intros E. unfold resolve. by rewrite E. Qed.

Lemma trace_resolve_fallback b e1 fragment :
  createType provider primarySchema b = inl e1 ->
  createType provider fallbackSchema b = inr fragment ->
  resolve provider b = inr fragment.
Proof. intros E1 E2. unfold resolve. by rewrite E1, E2. Qed.

Lemma trace_remainder b fragments remainder calls lines :
  SplitTrace provider b fragments remainder calls lines ->
  remainder = drop (sum_list (encodedLength <$> fragments)) b.
Proof.
  induction 1 as [|b e1 e2|b f fs rem cs ls Hne E Htr IH
                  |b e1 f fs rem cs ls Hne E1 E2 Htr IH]; try done.
  - by rewrite IH, drop_drop.
  - by rewrite IH, drop_drop.
Qed.

Lemma trace_offsets b fragments remainder calls lines :
  SplitTrace provider b fragments remainder calls lines ->
  forall k fragment,
    fragments !! k = Some fragment ->
    drop (sum_list (encodedLength <$> take k fragments)) b <> []
    /\ resolve provider (drop (sum_list (encodedLength <$> take k fragments)) b)
       = inr fragment.
Proof.
  induction 1 as [|b e1 e2|b f fs rem cs ls Hne E Htr IH
                  |b e1 f fs rem cs ls Hne E1 E2 Htr IH];
    intros k fragment Hk; try done.
  - destruct k as [|k]; simpl in Hk |- *.
    + injection Hk as <-. split; [done|]. by apply trace_resolve_primary.
    + rewrite <- drop_drop. by apply IH.
  - destruct k as [|k]; simpl in Hk |- *.
    + injection Hk as <-. split; [done|]. by eapply trace_resolve_fallback.
    + rewrite <- drop_drop. by apply IH.
Qed.

Lemma trace_stop b fragments remainder calls lines :
  SplitTrace provider b fragments remainder calls lines ->
  (remainder = [] /\ lines = [])
  \/ (remainder <> []
      /\ exists e1 e2,
           resolve provider remainder = inl (e1, e2)
           /\ lines = [failureLine e1 e2]).
Proof.
  induction 1 as [|b e1 e2 Hne E1 E2|b f fs rem cs ls Hne E Htr IH
                  |b e1 f fs rem cs ls Hne E1 E2 Htr IH]; try done.
  - by left.
  - right. split; [done|]. exists e1, e2. unfold resolve. by rewrite E1, E2.
Qed.

Lemma trace_calls b fragments remainder calls lines :
  SplitTrace provider b fragments remainder calls lines ->
  Forall (fun call =>
            (call.1 = primarySchema \/ call.1 = fallbackSchema)
            /\ call.2 <> []
            /\ exists offset, call.2 = drop offset b) calls
  /\ length fragments <= length calls
  /\ length calls <= 2 * length fragments + 2 * length lines.
Proof.
  induction 1 as [|b e1 e2 Hne E1 E2|b f fs rem cs ls Hne E Htr IH
                  |b e1 f fs rem cs ls Hne E1 E2 Htr IH].
  - repeat split; [constructor|done..].
  - split; [|simpl; lia].
    repeat constructor; simpl; auto; by exists 0.
  - destruct IH as (Hall & Hlo & Hhi). split; [|simpl; lia].
    constructor.
    + simpl. repeat split; [by left|done|by exists 0].
    + eapply Forall_impl; [exact Hall|].
      intros call (Hname & Hbytes & offset & Hoff).
      repeat split; [done..|]. exists (encodedLength f + offset).
      by rewrite Hoff, drop_drop.
  - destruct IH as (Hall & Hlo & Hhi). split; [|simpl; lia].
    constructor; [|constructor].
    + simpl. repeat split; [by left|done|by exists 0].
    + simpl. repeat split; [by right|done|by exists 0].
    + eapply Forall_impl; [exact Hall|].
      intros call (Hname & Hbytes & offset & Hoff).
      repeat split; [done..|]. exists (encodedLength f + offset).
      by rewrite Hoff, drop_drop.
Qed.

Lemma trace_count b fragments remainder calls lines :
  makesProgress provider ->
  SplitTrace provider b fragments remainder calls lines ->
  length fragments <= length b.
Proof.
  intros Hprog.
  induction 1 as [|b e1 e2 Hne E1 E2|b f fs rem cs ls Hne E Htr IH
                  |b e1 f fs rem cs ls Hne E1 E2 Htr IH]; simpl; try lia.
  - rewrite length_drop in IH. apply Hprog in E.
    unfold encodedLength in IH.
    destruct (xcmEncoded f); [done|]. destruct b; [done|]. simpl in *. lia.
  - rewrite length_drop in IH. apply Hprog in E2.
    unfold encodedLength in IH.
    destruct (xcmEncoded f); [done|]. destruct b; [done|]. simpl in *. lia.
Qed.
End Traces.

(** X1.  When the loop is left, the buffer it holds is the input without
    its first bytes, as many as the returned fragments re-encode to in
    total. *)
Theorem remaining_is_input_minus_consumed fuel provider r w input
    fragments r' w' :
  buffers w !! r = Some input ->
  splitLoop fuel provider r [] w = Some (Normal (fragments, r'), w') ->
  buffers w' !!! r' = drop (sum_list (encodedLength <$> fragments)) input.
Proof.
  intros Hbuf Hrun. apply lookup_total_of_lookup in Hbuf.
  destruct (splitLoop_trace _ _ _ _ _ _ _ Hrun)
    as (fs & remainder & calls & lines & r1 & Hres & Hrem & Htrace & _).
  injection Hres as -> ->. rewrite Hbuf in Htrace.
  rewrite Hrem. by eapply trace_remainder.
Qed.

Lemma remaining_is_input_minus_consumed_witness :
  exists fragments r' w',
    splitLoop 4 (demoProvider primarySchema) 0 []
      (callerWorld (demoMessage ++ [x05; x00; x09]))
    = Some (Normal (fragments, r'), w')
    /\ buffers w' !!! r' = [x09].
Proof.
  destruct (splitLoop 4 (demoProvider primarySchema) 0 []
              (callerWorld (demoMessage ++ [x05; x00; x09])))
    as [[[[fragments r']|e] w']|] eqn:Hrun.
  - exists fragments, r', w'. split; [reflexivity|].
    rewrite (remaining_is_input_minus_consumed 4 (demoProvider primarySchema) 0
               (callerWorld (demoMessage ++ [x05; x00; x09]))
               (demoMessage ++ [x05; x00; x09]) fragments r' w' eq_refl Hrun).
    vm_compute in Hrun. injection Hrun as <- _ _. reflexivity.
  - vm_compute in Hrun. discriminate Hrun.
  - vm_compute in Hrun. discriminate Hrun.
Defined.

(** X2.  The returned list mirrors the byte order of the input: the
    fragment at position [k] is what the resolver decodes from the input
    at the offset where the re-encodings of the fragments before it end,
    and there is at least one byte at that offset. *)
Theorem fragments_decoded_at_their_offsets fuel provider r w input
    fragments w' :
  buffers w !! r = Some input ->
  decodeMessageIntoFragmentVec fuel provider (U8a r) w
    = Some (Normal fragments, w') ->
  forall k fragment,
    fragments !! k = Some fragment ->
    drop (sum_list (encodedLength <$> take k fragments)) input <> []
    /\ resolve provider
         (drop (sum_list (encodedLength <$> take k fragments)) input)
       = inr fragment.
Proof.
  intros Hbuf Hrun. apply lookup_total_of_lookup in Hbuf.
  destruct (decode_trace _ _ _ _ _ _ Hrun)
    as (fs & remainder & calls & lines & Hres & Htrace & _).
  injection Hres as ->. rewrite Hbuf in Htrace.
  by eapply trace_offsets.
Qed.

Lemma fragments_decoded_at_their_offsets_witness :
  exists fragments w' second,
    decodeMessageIntoFragmentVec 4 (demoProvider primarySchema) (U8a 0)
      (callerWorld (demoMessage ++ [x05; x00; x09]))
    = Some (Normal fragments, w')
    /\ fragments !! 1 = Some second
    /\ resolve (demoProvider primarySchema) [x05; x00; x09] = inr second.
Proof.
  destruct (decodeMessageIntoFragmentVec 4 (demoProvider primarySchema) (U8a 0)
              (callerWorld (demoMessage ++ [x05; x00; x09])))
    as [[[fragments|e] w']|] eqn:Hrun.
  - destruct (fragments !! 1) as [second|] eqn:Hk.
    + exists fragments, w', second. split; [reflexivity|]. split; [exact Hk|].
      pose proof (fragments_decoded_at_their_offsets 4
                    (demoProvider primarySchema) 0
                    (callerWorld (demoMessage ++ [x05; x00; x09]))
                    (demoMessage ++ [x05; x00; x09]) fragments w' eq_refl Hrun
                    1 second Hk) as [_ Hres].
      vm_compute in Hrun. injection Hrun as <- _. exact Hres.
    + vm_compute in Hrun. injection Hrun as <- _. discriminate Hk.
  - vm_compute in Hrun. discriminate Hrun.
  - vm_compute in Hrun. discriminate Hrun.
Defined.

(** X3.  A call on a byte buffer prints at most one error line, and it
    prints one exactly when bytes are left over: either the fragments
    account for the whole input and nothing is printed, or the bytes after
    the last fragment are not empty, fail under both schemas, and the one
    line printed is the failure line of that attempt. *)
Theorem error_line_iff_bytes_left fuel provider r w input fragments w' :
  buffers w !! r = Some input ->
  decodeMessageIntoFragmentVec fuel provider (U8a r) w
    = Some (Normal fragments, w') ->
  let remainder := drop (sum_list (encodedLength <$> fragments)) input in
  (remainder = [] /\ stderr w' = stderr w)
  \/ (remainder <> []
      /\ exists e1 e2,
           resolve provider remainder = inl (e1, e2)
           /\ stderr w' = stderr w ++ [failureLine e1 e2]).
Proof.
  intros Hbuf Hrun remainder. apply lookup_total_of_lookup in Hbuf.
  destruct (decode_trace _ _ _ _ _ _ Hrun)
    as (fs & rem & calls & lines & Hres & Htrace & _ & Herr & _).
  injection Hres as ->. rewrite Hbuf in Htrace.
  pose proof (trace_remainder _ _ _ _ _ _ Htrace) as Hrem.
  fold remainder in Hrem. subst rem.
  destruct (trace_stop _ _ _ _ _ _ Htrace) as [[He ->]|(Hne & e1 & e2 & Hr & ->)].
  - left. by rewrite Herr, app_nil_r.
  - right. split; [done|]. by exists e1, e2.
Qed.

Lemma error_line_iff_bytes_left_witness :
  exists fragments w',
    decodeMessageIntoFragmentVec 4 (demoProvider primarySchema) (U8a 0)
      (callerWorld (demoMessage ++ [x05; x00; x09]))
    = Some (Normal fragments, w')
    /\ stderr w' = ["Unable to find type StagingXcmVersionedXcm"].
Proof.
  destruct (decodeMessageIntoFragmentVec 4 (demoProvider primarySchema) (U8a 0)
              (callerWorld (demoMessage ++ [x05; x00; x09])))
    as [[[fragments|e] w']|] eqn:Hrun.
  - exists fragments, w'. split; [reflexivity|].
    destruct (error_line_iff_bytes_left 4 (demoProvider primarySchema) 0
                (callerWorld (demoMessage ++ [x05; x00; x09]))
                (demoMessage ++ [x05; x00; x09]) fragments w' eq_refl Hrun)
      as [[Hnil _]|(_ & e1 & e2 & Hres & Herr)].
    + vm_compute in Hrun. injection Hrun as <- _. discriminate Hnil.
    + vm_compute in Hrun. injection Hrun as <- _.
      vm_compute in Hres. injection Hres as <- <-. exact Herr.
  - vm_compute in Hrun. discriminate Hrun.
  - vm_compute in Hrun. discriminate Hrun.
Defined.

(** X4.  Every decode attempt of a call is made under one of the two
    schema names, on a non-empty suffix of the input; each returned
    fragment costs at least one attempt and at most two, and the pass that
    breaks the loop costs two more. *)
Theorem decode_attempts_bounded fuel provider r w input fragments w' :
  buffers w !! r = Some input ->
  decodeMessageIntoFragmentVec fuel provider (U8a r) w
    = Some (Normal fragments, w') ->
  exists calls,
    createTypeCalls w' = createTypeCalls w ++ calls
    /\ Forall (fun call =>
                 (call.1 = primarySchema \/ call.1 = fallbackSchema)
                 /\ call.2 <> []
                 /\ exists offset, call.2 = drop offset input) calls
    /\ length fragments <= length calls
    /\ length calls <= 2 * length fragments + 2.
Proof.
  intros Hbuf Hrun. apply lookup_total_of_lookup in Hbuf.
  destruct (decode_trace _ _ _ _ _ _ Hrun)
    as (fs & rem & calls & lines & Hres & Htrace & Hcalls & _).
  injection Hres as ->. rewrite Hbuf in Htrace.
  destruct (trace_calls _ _ _ _ _ _ Htrace) as (Hall & Hlo & Hhi).
  exists calls. repeat split; [done..|].
  assert (length lines <= 1); [|lia].
  destruct (trace_stop _ _ _ _ _ _ Htrace)
    as [[_ ->]|(_ & e1 & e2 & _ & ->)]; simpl; lia.
Qed.

Lemma decode_attempts_bounded_witness :
  exists fragments w' calls,
    decodeMessageIntoFragmentVec 4 (demoProvider fallbackSchema) (U8a 0)
      (callerWorld (demoMessage ++ [x05; x00]))
    = Some (Normal fragments, w')
    /\ createTypeCalls w' = calls
    /\ length fragments <= length calls <= 2 * length fragments + 2.
Proof.
  destruct (decodeMessageIntoFragmentVec 4 (demoProvider fallbackSchema) (U8a 0)
              (callerWorld (demoMessage ++ [x05; x00])))
    as [[[fragments|e] w']|] eqn:Hrun.
  - exists fragments, w', (createTypeCalls w'). split; [reflexivity|].
    split; [reflexivity|].
    destruct (decode_attempts_bounded 4 (demoProvider fallbackSchema) 0
                (callerWorld (demoMessage ++ [x05; x00]))
                (demoMessage ++ [x05; x00]) fragments w' eq_refl Hrun)
      as (calls & Hcalls & _ & Hlo & Hhi).
    rewrite Hcalls. simpl. split; assumption.
  - vm_compute in Hrun. discriminate Hrun.
  - vm_compute in Hrun. discriminate Hrun.
Defined.

(** X5.  With a capability that consumes at least one byte per decoded
    value, a call never returns more fragments than the input has
    bytes. *)
Theorem fragment_count_bounded fuel provider r w input fragments w' :
  makesProgress provider ->
  buffers w !! r = Some input ->
  decodeMessageIntoFragmentVec fuel provider (U8a r) w
    = Some (Normal fragments, w') ->
  length fragments <= length input.
Proof.
  intros Hprog Hbuf Hrun. apply lookup_total_of_lookup in Hbuf.
  destruct (decode_trace _ _ _ _ _ _ Hrun)
    as (fs & rem & calls & lines & Hres & Htrace & _).
  injection Hres as ->. rewrite Hbuf in Htrace.
  by eapply trace_count.
Qed.

Lemma fragment_count_bounded_witness :
  exists fragments w',
    decodeMessageIntoFragmentVec 4 (demoProvider primarySchema) (U8a 0)
      (callerWorld (demoMessage ++ [x05; x00]))
    = Some (Normal fragments, w')
    /\ length fragments <= 6.
Proof.
  destruct (decodeMessageIntoFragmentVec 4 (demoProvider primarySchema) (U8a 0)
              (callerWorld (demoMessage ++ [x05; x00])))
    as [[[fragments|e] w']|] eqn:Hrun.
  - exists fragments, w'. split; [reflexivity|].
    exact (fragment_count_bounded 4 (demoProvider primarySchema) 0
             (callerWorld (demoMessage ++ [x05; x00]))
             (demoMessage ++ [x05; x00]) fragments w'
             (demo_makesProgress primarySchema) eq_refl Hrun).
  - vm_compute in Hrun. discriminate Hrun.
  - vm_compute in Hrun. discriminate Hrun.
Defined.

(** A run that [fragmentsOf] predicts: the call returns its fragments,
    and prints nothing when no byte is left. *)
Lemma decode_of_fragmentsOf fuel provider r w fragments remainder :
  fragmentsOf fuel provider (buffers w !!! r) = Some (fragments, remainder) ->
  exists w',
    decodeMessageIntoFragmentVec fuel provider (U8a r) w
      = Some (Normal fragments, w')
    /\ (remainder = [] -> stderr w' = stderr w).
Proof.
  intros Hview.
  pose proof (splitLoop_fragmentsOf provider fuel r [] w) as Hrun.
  rewrite Hview in Hrun. destruct Hrun as (r' & w' & Hrun & Hrem & _).
  exists w'. rewrite decode_U8a, Hrun. split; [done|]. intros ->.
  destruct (splitLoop_trace _ _ _ _ _ _ _ Hrun)
    as (fs & rem & calls & lines & r1 & Hres & Hrem' & Htrace & _ & Herr & _).
  injection Hres as _ <-. rewrite Hrem in Hrem'. subst rem.
  destruct (trace_stop _ _ _ _ _ _ Htrace) as [[_ ->]|[Hne _]]; [|done].
  by rewrite Herr, app_nil_r.
Qed.

Lemma fragmentsOf_concat provider :
  selfDelimiting provider ->
  forall fragments extra,
    Forall (fun fragment =>
              xcmEncoded fragment <> []
              /\ resolve provider (xcmEncoded fragment) = inr fragment)
           fragments ->
    fragmentsOf (S (length fragments + extra)) provider
      (concat (xcmEncoded <$> fragments))
    = Some (fragments, []).
Proof.
  intros Hself. induction fragments as [|f fs IH]; intros extra Hall.
  - reflexivity.
  - apply Forall_cons in Hall as [[Hne Hres] Hall].
    cbn [fmap list_fmap concat length Nat.add].
    change (fragmentsOf (S (S (length fs + extra))) provider
              (xcmEncoded f ++ concat (xcmEncoded <$> fs)))
      with (if length (xcmEncoded f ++ concat (xcmEncoded <$> fs)) =? 0
            then Some ([], xcmEncoded f ++ concat (xcmEncoded <$> fs))
            else
              match resolve provider
                      (xcmEncoded f ++ concat (xcmEncoded <$> fs)) with
              | inl _ => Some ([], xcmEncoded f ++ concat (xcmEncoded <$> fs))
              | inr fragment =>
                  match fragmentsOf (S (length fs + extra)) provider
                          (drop (length (xcmEncoded fragment))
                             (xcmEncoded f ++ concat (xcmEncoded <$> fs))) with
                  | Some (more, remainder) => Some (fragment :: more, remainder)
                  | None => None
                  end
              end).
    destruct (length (xcmEncoded f ++ concat (xcmEncoded <$> fs)) =? 0) eqn:El.
    { apply Nat.eqb_eq in El. rewrite length_app in El.
      by destruct (xcmEncoded f). }
    rewrite (Hself (xcmEncoded f) f _ Hne) by by split.
    by rewrite drop_app_length, IH.
Qed.

(** X6.  Encoding a list of messages and decoding the result gives the
    list back.  Let the capability be self-delimiting, and let each
    message of a list re-encode to at least one byte and be what the
    resolver decodes from its own re-encoding.  Then a call on the
    concatenation of the re-encodings returns exactly that list, in order,
    and prints no error line. *)
Theorem decode_concatenated_encodings provider r w fragments :
  selfDelimiting provider ->
  Forall (fun fragment =>
            xcmEncoded fragment <> []
            /\ resolve provider (xcmEncoded fragment) = inr fragment)
         fragments ->
  buffers w !! r = Some (concat (xcmEncoded <$> fragments)) ->
  forall fuel,
    length fragments < fuel ->
    exists w',
      decodeMessageIntoFragmentVec fuel provider (U8a r) w
        = Some (Normal fragments, w')
      /\ stderr w' = stderr w.
Proof.
  intros Hself Hall Hbuf fuel Hfuel. apply lookup_total_of_lookup in Hbuf.
  destruct (decode_of_fragmentsOf fuel provider r w fragments [])
    as (w' & Hrun & Herr).
  - rewrite Hbuf.
    replace fuel with (S (length fragments + (fuel - S (length fragments))))
      by lia.
    by apply fragmentsOf_concat.
  - exists w'. split; [done|]. by apply Herr.
Qed.

Lemma decode_concatenated_encodings_witness :
  exists w',
    decodeMessageIntoFragmentVec 4 (demoProvider primarySchema) (U8a 0)
      (callerWorld (demoMessage ++ [x05; x00] ++ [x04; x01; x01]))
    = Some (Normal [ {| xcmType := "V3";
                        xcmValue := Sequence [demoInstruction x00;
                                              demoInstruction x02];
                        xcmEncoded := demoMessage |};
                     {| xcmType := "V5"; xcmValue := Sequence [];
                        xcmEncoded := [x05; x00] |};
                     {| xcmType := "V4";
                        xcmValue := Sequence [demoInstruction x01];
                        xcmEncoded := [x04; x01; x01] |} ], w')
    /\ stderr w' = [].
Proof.
  apply (decode_concatenated_encodings (demoProvider primarySchema) 0
           (callerWorld (demoMessage ++ [x05; x00] ++ [x04; x01; x01]))
           [ {| xcmType := "V3";
                xcmValue := Sequence [demoInstruction x00; demoInstruction x02];
                xcmEncoded := demoMessage |};
             {| xcmType := "V5"; xcmValue := Sequence [];
                xcmEncoded := [x05; x00] |};
             {| xcmType := "V4"; xcmValue := Sequence [demoInstruction x01];
                xcmEncoded := [x04; x01; x01] |} ]).
  - exact demo_selfDelimiting.
  - repeat constructor; discriminate.
  - reflexivity.
  - simpl. lia.
Defined.

(** X7.  A decoded value whose re-encoding is at least as long as the
    buffer ends the loop: the call returns that one fragment and prints
    nothing, whatever the bytes of the re-encoding are. *)
Theorem long_encoding_ends_the_loop provider r w input fragment :
  buffers w !! r = Some input ->
  input <> [] ->
  resolve provider input = inr fragment ->
  length input <= encodedLength fragment ->
  forall fuel,
    exists w',
      decodeMessageIntoFragmentVec (S (S fuel)) provider (U8a r) w
        = Some (Normal [fragment], w')
      /\ stderr w' = stderr w.
Proof.
  intros Hbuf Hne Hres Hlen fuel. apply lookup_total_of_lookup in Hbuf.
  destruct (decode_of_fragmentsOf (S (S fuel)) provider r w [fragment] [])
    as (w' & Hrun & Herr).
  - rewrite Hbuf. cbn [fragmentsOf].
    destruct (length input =? 0) eqn:El.
    { apply Nat.eqb_eq in El. by destruct input. }
    rewrite Hres. unfold encodedLength in Hlen.
    by rewrite drop_ge by done.
  - exists w'. split; [done|]. by apply Herr.
Qed.

Lemma long_encoding_ends_the_loop_witness :
  exists w',
    decodeMessageIntoFragmentVec 2 paddingProvider (U8a 0)
      (callerWorld [x03; x09])
    = Some (Normal [ {| xcmType := "V3"; xcmValue := Sequence [];
                        xcmEncoded := [x03; x00; x00; x00] |} ], w')
    /\ stderr w' = [].
Proof.
  apply (long_encoding_ends_the_loop paddingProvider 0 (callerWorld [x03; x09])
           [x03; x09]
           {| xcmType := "V3"; xcmValue := Sequence [];
              xcmEncoded := [x03; x00; x00; x00] |}).
  - reflexivity.
  - discriminate.
  - reflexivity.
  - unfold encodedLength. simpl. lia.
Defined.

(** What a call on a buffer returns depends on the bytes alone. *)
Lemma decode_value fuel provider r w :
  fst <$> decodeMessageIntoFragmentVec fuel provider (U8a r) w
  = (fun out => Normal out.1) <$> fragmentsOf fuel provider (buffers w !!! r).
Proof.
  rewrite decode_U8a.
  pose proof (splitLoop_fragmentsOf provider fuel r [] w) as Hrun.
  destruct (fragmentsOf fuel provider (buffers w !!! r))
    as [[fragments remainder]|].
  - destruct Hrun as (r' & w' & -> & _). reflexivity.
  - by rewrite Hrun.
Qed.

(** X8.  A string that passes the hex guard is decoded as the byte
    buffer it spells: the call returns what a call on a buffer holding
    [hexToU8a] of the string returns, and it needs the same fuel. *)
Theorem hex_string_decodes_as_its_bytes fuel provider s w r w2 :
  isHex s = true ->
  buffers w2 !! r = Some (hexToU8a s) ->
  fst <$> decodeMessageIntoFragmentVec fuel provider (Str s) w
  = fst <$> decodeMessageIntoFragmentVec fuel provider (U8a r) w2.
Proof.
  intros Hhex Hbuf. apply lookup_total_of_lookup in Hbuf.
  rewrite decode_value, Hbuf.
  set (r0 := fresh (dom (buffers w))).
  set (w0 := {| buffers := <[r0 := hexToU8a s]> (buffers w);
                createTypeCalls := createTypeCalls w;
                stderr := stderr w |}).
  assert (Hstr : decodeMessageIntoFragmentVec fuel provider (Str s) w
                 = decodeMessageIntoFragmentVec fuel provider (U8a r0) w0).
  { unfold decodeMessageIntoFragmentVec. unfold bind at 1 3.
    by rewrite hexToU8aSafe_accepts. }
  rewrite Hstr, decode_value. unfold w0; simpl.
  by rewrite lookup_total_insert_eq.
Qed.

Lemma hex_string_decodes_as_its_bytes_witness :
  fst <$> decodeMessageIntoFragmentVec 3 (demoProvider primarySchema)
            (Str "0x030200020500") (callerWorld [])
  = fst <$> decodeMessageIntoFragmentVec 3 (demoProvider primarySchema)
              (U8a 0) (callerWorld (demoMessage ++ [x05; x00])).
Proof.
  apply (hex_string_decodes_as_its_bytes 3 (demoProvider primarySchema)
           "0x030200020500" (callerWorld []) 0
           (callerWorld (demoMessage ++ [x05; x00])));
    reflexivity.
Defined.

(** ** The unwrapper and the classifier, on every input *)

(** X9.  The unwrapper never throws, and its version label is always one
    of V1..V5: each payload getter is called only under its own test.  A
    message of one of the five versions unwraps to that version and to its
    payload, unchanged whatever the payload is; any other message unwraps
    to "V5" with an empty array. *)
Theorem unwrap_never_throws (vxcm : XcmVersionedXcm) :
  exists unwrapped,
    unwrapVersionedXcm vxcm = Normal unwrapped
    /\ In (version unwrapped) knownVersions
    /\ (In (xcmType vxcm) knownVersions ->
        version unwrapped = xcmType vxcm
        /\ instructions unwrapped = xcmValue vxcm)
    /\ (~ In (xcmType vxcm) knownVersions ->
        unwrapped = {| version := "V5"; instructions := Sequence [] |}).
Proof.
  destruct vxcm as [type value encoded].
  unfold unwrapVersionedXcm, isV1, isV2, isV3, isV4, isV5, asV1, asV2, asV3,
    asV4, asV5, asVariant, isVariant, knownVersions; simpl.
  destruct (String.eqb_spec type "V5") as [->|N5].
  { eexists. split; [reflexivity|]. simpl. intuition congruence. }
  destruct (String.eqb_spec type "V4") as [->|N4].
  { eexists. split; [reflexivity|]. simpl. intuition congruence. }
  destruct (String.eqb_spec type "V3") as [->|N3].
  { eexists. split; [reflexivity|]. simpl. intuition congruence. }
  destruct (String.eqb_spec type "V2") as [->|N2].
  { eexists. split; [reflexivity|]. simpl. intuition congruence. }
  destruct (String.eqb_spec type "V1") as [->|N1].
  { eexists. split; [reflexivity|]. simpl.
    destruct (Array_isArray value); intuition congruence. }
  eexists. split; [reflexivity|]. simpl. intuition congruence.
Qed.

Lemma unwrap_never_throws_witness :
  exists unwrapped,
    unwrapVersionedXcm
      {| xcmType := "V4"; xcmValue := Wrapped [demoInstruction x01];
         xcmEncoded := [x04] |} = Normal unwrapped
    /\ version unwrapped = "V4"
    /\ instructions unwrapped = Wrapped [demoInstruction x01].
Proof.
  destruct (unwrap_never_throws
              {| xcmType := "V4"; xcmValue := Wrapped [demoInstruction x01];
                 xcmEncoded := [x04] |})
    as (unwrapped & Hrun & _ & Hknown & _).
  exists unwrapped. split; [exact Hrun|].
  apply Hknown. unfold knownVersions; simpl. tauto.
Defined.

Ltac classify_case ty :=
  match goal with
  | |- context [String.eqb ty ?name] =>
      destruct (String.eqb_spec ty name) as [->|?]
  end.

(** The label of a decoded instruction, read back. *)
Lemma classify_label (instr : Instruction) label :
  classifyInstruction instr = Some label ->
  In (instrType instr) classifiedTypes
  /\ withoutBlanks label = instrType instr
  /\ truthy label = true.
Proof.
  destruct instr as [ty text].
  unfold classifyInstruction; simpl; unfold hasType; simpl.
  repeat (classify_case ty;
          [intros [= <-]; unfold classifiedTypes; simpl;
           split; [tauto|split; reflexivity]|]).
  discriminate.
Qed.

Lemma classify_known (instr : Instruction) :
  In (instrType instr) classifiedTypes ->
  exists label, classifyInstruction instr = Some label.
Proof.
  destruct instr as [ty text].
  unfold classifyInstruction, classifiedTypes; simpl; unfold hasType; simpl.
  intros Hin.
  repeat (classify_case ty; [by eexists|]).
  exfalso. repeat (destruct Hin as [Hin|Hin]; [congruence|]). exact Hin.
Qed.

(** X10.  For a decoded instruction the classifier gives a label exactly
    when the name of its variant is one of the fifteen of the table; the
    label is never empty, and it is the variant name with blanks between
    its words, so that two instructions with the same label are of the
    same variant. *)
Theorem label_names_the_variant (instr : Instruction) :
  ((exists label, classifyInstruction instr = Some label)
   <-> In (instrType instr) classifiedTypes)
  /\ (forall label,
        classifyInstruction instr = Some label ->
        withoutBlanks label = instrType instr /\ label <> "")
  /\ (forall other label,
        classifyInstruction instr = Some label ->
        classifyInstruction other = Some label ->
        instrType other = instrType instr).
Proof.
  split; [|split].
  - split.
    + intros [label Hl]. by apply classify_label in Hl as [Hin _].
    + apply classify_known.
  - intros label Hl. apply classify_label in Hl as (_ & Hname & Ht).
    split; [done|]. intros ->. discriminate Ht.
  - intros other label Hl Ho.
    apply classify_label in Hl as (_ & <- & _).
    by apply classify_label in Ho as (_ & <- & _).
Qed.

Lemma label_names_the_variant_witness :
  withoutBlanks "Buy Execution" = instrType (demoInstruction x01)
  /\ ~ (exists label, classifyInstruction (demoInstruction x03) = Some label).
Proof.
  split.
  - destruct (label_names_the_variant (demoInstruction x01)) as (_ & Hname & _).
    exact (proj1 (Hname "Buy Execution" eq_refl)).
  - destruct (label_names_the_variant (demoInstruction x03)) as (Hiff & _).
    intros Hsome. apply Hiff in Hsome.
    unfold classifiedTypes in Hsome; simpl in Hsome.
    repeat (destruct Hsome as [Hsome|Hsome]; [discriminate Hsome|]).
    exact Hsome.
Defined.

(** ** The printer *)

Lemma printFragments_cons env i fragment rest c :
  printFragments env i (fragment :: rest) c =
    match unwrapVersionedXcm fragment with
    | Normal unwrapped =>
        (_ <-- forEach (instructions unwrapped) printInstruction ;;
         _ <-- consoleLog Separator ;;
         printFragments env (S i) rest)
          (afterHeader env (i + 1) fragment c)
    | Throw e => Some (Throw e, afterHeader env (i + 1) fragment c)
    end.
Proof.
  cbn [printFragments].
  unfold bindP at 1, liftM at 1, toU8a at 1, alloc at 1. cbn [world stdout].
  unfold bindP at 1, liftM at 1, contents at 1. cbn [world stdout buffers].
  rewrite lookup_total_insert_eq.
  unfold bindP at 1, liftM at 1, alloc at 1. cbn [world stdout buffers].
  unfold bindP at 1, liftM at 1, contents at 1. cbn [world stdout buffers].
  rewrite lookup_total_insert_eq.
  unfold bindP at 1, consoleLog at 1. cbn [world stdout].
  unfold bindP at 1, consoleLog at 1. cbn [world stdout].
  unfold bindP at 1, liftCompletion at 1.
  unfold afterHeader, fragmentHeader. cbn [createTypeCalls stderr].
  rewrite <- app_assoc.
  by destruct (unwrapVersionedXcm fragment).
Qed.

Lemma afterHeader_buffers env position fragment c :
  buffers (world c) ⊆ buffers (world (afterHeader env position fragment c)).
Proof.
  unfold afterHeader; simpl.
  etrans; [|apply insert_fresh_subseteq]. apply insert_fresh_subseteq.
Qed.

Lemma printInstruction_report instruction c :
  printInstruction instruction c
  = Some (Normal tt,
          {| world := world c;
             stdout := stdout c ++ instructionReport instruction |}).
Proof.
  unfold printInstruction, instructionReport.
  destruct (classifyInstruction instruction) as [text|] eqn:Hl.
  - apply classify_label in Hl as (_ & _ & ->).
    unfold bindP, consoleLog; simpl. by rewrite <- app_assoc.
  - reflexivity.
Qed.

Lemma forEachItem_report items :
  forall c,
    forEachItem printInstruction items c
    = Some (Normal tt,
            {| world := world c;
               stdout := stdout c ++ flat_map instructionReport items |}).
Proof.
  induction items as [|item items IH]; intros c.
  - simpl. rewrite app_nil_r. by destruct c.
  - cbn [forEachItem flat_map]. unfold bindP.
    rewrite printInstruction_report, IH. simpl. by rewrite <- app_assoc.
Qed.

(** No payload getter is reached outside its own test. *)
Lemma unwrap_normal (vxcm : XcmVersionedXcm) :
  exists unwrapped, unwrapVersionedXcm vxcm = Normal unwrapped.
Proof.
  unfold unwrapVersionedXcm, isV1, isV2, isV3, isV4, isV5, asV1, asV2, asV3,
    asV4, asV5, asVariant.
  repeat (destruct (isVariant _ vxcm); [by eexists|]). by eexists.
Qed.

Lemma printedInstructions_Some fragment items :
  printedInstructions fragment = Some items ->
  exists label,
    unwrapVersionedXcm fragment
    = Normal {| version := label; instructions := Sequence items |}.
Proof.
  unfold printedInstructions.
  destruct (unwrapVersionedXcm fragment) as [[label [items'|inner]]|];
    [|discriminate..].
  intros [= ->]. by exists label.
Qed.

Lemma printedInstructions_None fragment :
  printedInstructions fragment = None ->
  exists label inner,
    unwrapVersionedXcm fragment
    = Normal {| version := label; instructions := Wrapped inner |}.
Proof.
  unfold printedInstructions.
  destruct (unwrap_normal fragment) as (unwrapped & ->).
  destruct unwrapped as [label [items|inner]]; [discriminate|].
  intros _. by exists label, inner.
Qed.

(** Fragments that all unwrap to arrays: the loop prints [report]. *)
Lemma printFragments_report env fragments :
  forall i c,
    Forall (fun fragment => is_Some (printedInstructions fragment)) fragments ->
    exists c',
      printFragments env i fragments c = Some (Normal tt, c')
      /\ stdout c' = stdout c ++ report env (i + 1) fragments
      /\ buffers (world c) ⊆ buffers (world c')
      /\ createTypeCalls (world c') = createTypeCalls (world c)
      /\ stderr (world c') = stderr (world c).
Proof.
  induction fragments as [|fragment rest IH]; intros i c Hall.
  - exists c. simpl. by rewrite app_nil_r.
  - apply Forall_cons in Hall as [[items Hitems] Hall].
    rewrite printFragments_cons.
    destruct (printedInstructions_Some _ _ Hitems) as [label ->].
    cbn [instructions forEach]. unfold bindP at 1.
    rewrite forEachItem_report.
    unfold bindP at 1, consoleLog at 1. cbn [world stdout].
    edestruct (IH (S i)) as (c' & -> & Hout & Hsub & Hcalls & Herr); [done|].
    exists c'. split; [done|]. cbn [world stdout] in *.
    split; [|split; [|done]].
    + rewrite Hout. cbn [report]. rewrite Hitems. cbn [default].
      unfold afterHeader. cbn [stdout].
      replace (S i + 1) with (S (i + 1)) by lia.
      by rewrite <- !app_assoc.
    + etrans; [apply (afterHeader_buffers env (i + 1) fragment c)|done].
Qed.

(** The first fragment that unwraps to no array stops the printer. *)
Lemma printFragments_not_array env before fragment after :
  forall i c,
    Forall (fun f => is_Some (printedInstructions f)) before ->
    printedInstructions fragment = None ->
    exists c',
      printFragments env i (before ++ fragment :: after) c
      = Some (Throw (TypeError "instructions.forEach"), c')
      /\ stdout c' = stdout c ++ report env (i + 1) before
                       ++ fragmentHeader env (i + 1 + length before) fragment.
Proof.
  induction before as [|f before IH]; intros i c Hall Hnone.
  - cbn [app]. rewrite printFragments_cons.
    destruct (printedInstructions_None _ Hnone) as (label & inner & ->).
    cbn [instructions forEach]. unfold bindP at 1, throwP at 1.
    eexists. split; [reflexivity|]. unfold afterHeader. cbn [stdout report length].
    by rewrite Nat.add_0_r.
  - apply Forall_cons in Hall as [[items Hitems] Hall].
    cbn [app]. rewrite printFragments_cons.
    destruct (printedInstructions_Some _ _ Hitems) as [label ->].
    cbn [instructions forEach]. unfold bindP at 1.
    rewrite forEachItem_report.
    unfold bindP at 1, consoleLog at 1. cbn [world stdout].
    edestruct (IH (S i)) as (c' & -> & Hout); [done..|].
    exists c'. split; [done|]. rewrite Hout. cbn [stdout report length].
    rewrite Hitems. cbn [default]. unfold afterHeader. cbn [stdout].
    replace (S i + 1) with (S (i + 1)) by lia.
    replace (S (i + 1) + length before) with (i + 1 + S (length before)) by lia.
    by rewrite <- !app_assoc.
Qed.

(** What the printer walks, read off the message. *)
Lemma printedInstructions_spec (fragment : XcmVersionedXcm) :
  (~ In (xcmType fragment) knownVersions ->
   printedInstructions fragment = Some [])
  /\ (forall items,
        In (xcmType fragment) knownVersions ->
        xcmValue fragment = Sequence items ->
        printedInstructions fragment = Some items)
  /\ (forall inner,
        In (xcmType fragment) knownVersions ->
        xcmValue fragment = Wrapped inner ->
        printedInstructions fragment = None).
Proof.
  destruct fragment as [type value encoded].
  unfold printedInstructions, unwrapVersionedXcm, isV1, isV2, isV3, isV4, isV5,
    asV1, asV2, asV3, asV4, asV5, asVariant, isVariant, knownVersions; simpl.
  destruct (String.eqb_spec type "V5") as [->|N5];
    [simpl; repeat split; [tauto|by intros ? _ ->..]|].
  destruct (String.eqb_spec type "V4") as [->|N4];
    [simpl; repeat split; [tauto|by intros ? _ ->..]|].
  destruct (String.eqb_spec type "V3") as [->|N3];
    [simpl; repeat split; [tauto|by intros ? _ ->..]|].
  destruct (String.eqb_spec type "V2") as [->|N2];
    [simpl; repeat split; [tauto|by intros ? _ ->..]|].
  destruct (String.eqb_spec type "V1") as [->|N1];
    [simpl; repeat split; [tauto|by intros ? _ ->..]|].
  repeat split; intros ? Hin; exfalso; intuition congruence.
Qed.

Lemma instructionTexts_app calls more :
  instructionTexts (calls ++ more)
  = instructionTexts calls ++ instructionTexts more.
Proof. apply omap_app. Qed.

Lemma instructionTexts_items items :
  instructionTexts (flat_map instructionReport items) = instrText <$> items.
Proof.
  induction items as [|item items IH]; [done|].
  cbn [flat_map]. rewrite instructionTexts_app, IH.
  unfold instructionReport. by destruct (classifyInstruction item).
Qed.

Lemma instructionTexts_report env fragments :
  forall position,
    instructionTexts (report env position fragments)
    = flat_map (fun fragment =>
                  instrText <$> default [] (printedInstructions fragment))
               fragments.
Proof.
  induction fragments as [|fragment rest IH]; intros position; [done|].
  cbn [report flat_map].
  by rewrite !instructionTexts_app, instructionTexts_items, IH.
Qed.

Lemma hashPositions_items items :
  hashPositions (flat_map instructionReport items) = [].
Proof.
  induction items as [|item items IH]; [done|].
  cbn [flat_map]. unfold hashPositions in *. rewrite omap_app, IH.
  unfold instructionReport. by destruct (classifyInstruction item).
Qed.

Lemma hashPositions_report env fragments :
  forall position,
    hashPositions (report env position fragments)
    = seq position (length fragments).
Proof.
  induction fragments as [|fragment rest IH]; intros position; [done|].
  cbn [report length seq]. unfold hashPositions in *.
  rewrite !omap_app, hashPositions_items, IH. reflexivity.
Qed.

Lemma separators_items items :
  separators (flat_map instructionReport items) = 0.
Proof.
  induction items as [|item items IH]; [done|].
  cbn [flat_map]. unfold separators in *. rewrite omap_app, length_app, IH.
  unfold instructionReport. by destruct (classifyInstruction item).
Qed.

Lemma separators_report env fragments :
  forall position,
    separators (report env position fragments) = length fragments.
Proof.
  induction fragments as [|fragment rest IH]; intros position; [done|].
  cbn [report length].
  specialize (IH (S position)).
  pose proof (separators_items (default [] (printedInstructions fragment))) as Hi.
  unfold separators in *. rewrite !omap_app, !length_app, Hi, IH.
  reflexivity.
Qed.

Lemma decodeXCMGeneric_after_decode fuel env provider message c fragments w1 :
  decodeMessageIntoFragmentVec fuel provider message (world c)
    = Some (Normal fragments, w1) ->
  decodeXCMGeneric fuel env provider message c
  = printFragments env 0 fragments {| world := w1; stdout := stdout c |}.
Proof.
  intros Hdec. unfold decodeXCMGeneric, bindP, liftM. by rewrite Hdec.
Qed.

(** X11.  On a string that fails the hex guard the printer throws the
    input format error and does nothing else: nothing is printed, no
    decode is attempted, no buffer is made. *)
Theorem printer_rejects_bad_hex fuel env provider s c :
  isHex s = false ->
  decodeXCMGeneric fuel env provider (Str s) c
  = Some (Throw InputFormatError, c).
Proof.
  intros Hbad. unfold decodeXCMGeneric, bindP, liftM.
  unfold decodeMessageIntoFragmentVec, bind.
  rewrite hexToU8aSafe_rejects by done. by destruct c.
Qed.

Lemma printer_rejects_bad_hex_witness :
  decodeXCMGeneric 5 demoRendering (demoProvider primarySchema)
    (Str "0x0302000") (consoleWith [])
  = Some (Throw InputFormatError, consoleWith []).
Proof.
  apply (printer_rejects_bad_hex 5 demoRendering (demoProvider primarySchema)
           "0x0302000" (consoleWith [])).
  reflexivity.
Defined.

(** X12.  When each decoded fragment is of an unknown version or carries
    an array, the printer returns normally and prints, fragment by
    fragment in decode order: the hash line, numbered from 1, with the hex
    of the hash of the re-encoded bytes; the human view; for each
    instruction in array order its label line, when it has a label, and
    its text; then the separator.  So the instruction texts appear in the
    order of the input bytes, there is one separator per fragment, and a
    fragment of an unknown version shows no instruction.  The printer
    adds nothing to the error lines. *)
Theorem printer_report_in_decode_order fuel env provider message c
    fragments w1 :
  decodeMessageIntoFragmentVec fuel provider message (world c)
    = Some (Normal fragments, w1) ->
  Forall (fun fragment =>
            ~ In (xcmType fragment) knownVersions
            \/ exists items, xcmValue fragment = Sequence items) fragments ->
  exists c',
    decodeXCMGeneric fuel env provider message c = Some (Normal tt, c')
    /\ stdout c' = stdout c ++ report env 1 fragments
    /\ instructionTexts (report env 1 fragments)
       = flat_map (fun fragment =>
                     if decide (In (xcmType fragment) knownVersions)
                     then match xcmValue fragment with
                          | Sequence items => instrText <$> items
                          | Wrapped _ => []
                          end
                     else []) fragments
    /\ hashPositions (report env 1 fragments) = seq 1 (length fragments)
    /\ separators (report env 1 fragments) = length fragments
    /\ stderr (world c') = stderr w1
    /\ createTypeCalls (world c') = createTypeCalls w1.
Proof.
  intros Hdec Hall.
  assert (Harr : Forall (fun f => is_Some (printedInstructions f)) fragments).
  { eapply Forall_impl; [exact Hall|]. intros f Hf.
    destruct (printedInstructions_spec f) as (Hunknown & Hseq & _).
    destruct (decide (In (xcmType f) knownVersions)) as [Hin|Hout].
    - destruct Hf as [Hf|[items Hitems]]; [done|]. rewrite (Hseq items); eauto.
    - rewrite Hunknown; eauto. }
  rewrite (decodeXCMGeneric_after_decode _ _ _ _ _ _ _ Hdec).
  destruct (printFragments_report env fragments 0
              {| world := w1; stdout := stdout c |} Harr)
    as (c' & Hrun & Hout & _ & Hcalls & Herr).
  exists c'. split; [done|]. split; [done|]. split; [|split; [|split]].
  - rewrite instructionTexts_report.
    clear Hdec Hrun Hout Harr. induction Hall as [|f fs Hf Hall IH]; [done|].
    cbn [flat_map]. rewrite IH. f_equal.
    destruct (printedInstructions_spec f) as (Hunknown & Hseq & _).
    destruct (decide (In (xcmType f) knownVersions)) as [Hin|Hout].
    + destruct Hf as [Hf|[items Hitems]]; [done|].
      by rewrite (Hseq items), Hitems.
    + by rewrite Hunknown.
  - apply hashPositions_report.
  - apply separators_report.
  - done.
Qed.

Lemma printer_report_in_decode_order_witness :
  exists c',
    decodeXCMGeneric 4 demoRendering (demoProvider primarySchema) (U8a 0)
      (consoleWith (demoMessage ++ [x00; x01; x02]))
    = Some (Normal tt, c')
    /\ stdout c'
       = [ HashLine 1 "4"; HumanView "V3";
           LabelLine "Withdraw Asset"; InstructionLine "{withdrawAsset}";
           LabelLine "Deposit Asset"; InstructionLine "{depositAsset}";
           Separator;
           HashLine 2 "3"; HumanView "V0"; Separator ].
Proof.
  destruct (decodeMessageIntoFragmentVec 4 (demoProvider primarySchema) (U8a 0)
              (callerWorld (demoMessage ++ [x00; x01; x02])))
    as [[[fragments|e] w1]|] eqn:Hdec.
  - destruct (printer_report_in_decode_order 4 demoRendering
                (demoProvider primarySchema) (U8a 0)
                (consoleWith (demoMessage ++ [x00; x01; x02])) fragments w1 Hdec)
      as (c' & Hrun & Hout & _).
    + vm_compute in Hdec. injection Hdec as <- _.
      constructor; [|constructor; [|constructor]].
      * right. by eexists.
      * left. unfold knownVersions; simpl. intros H.
        repeat (destruct H as [H|H]; [discriminate H|]). exact H.
    + exists c'. split; [exact Hrun|]. rewrite Hout.
      vm_compute in Hdec. injection Hdec as <- _. reflexivity.
  - vm_compute in Hdec. discriminate Hdec.
  - vm_compute in Hdec. discriminate Hdec.
Defined.

(** X13.  A fragment of one of the five versions whose payload is no
    array makes the printer throw a TypeError at [forEach].  By then the
    fragments before it are printed in full, and of the fragment itself
    the hash line and the human view; its instructions, its separator and
    all later fragments are not printed. *)
Theorem printer_stops_at_non_array fuel env provider message c
    before fragment inner after w1 :
  decodeMessageIntoFragmentVec fuel provider message (world c)
    = Some (Normal (before ++ fragment :: after), w1) ->
  Forall (fun f =>
            ~ In (xcmType f) knownVersions
            \/ exists items, xcmValue f = Sequence items) before ->
  In (xcmType fragment) knownVersions ->
  xcmValue fragment = Wrapped inner ->
  exists c',
    decodeXCMGeneric fuel env provider message c
    = Some (Throw (TypeError "instructions.forEach"), c')
    /\ stdout c' = stdout c ++ report env 1 before
                     ++ fragmentHeader env (S (length before)) fragment.
Proof.
  intros Hdec Hall Hin Hwrapped.
  assert (Harr : Forall (fun f => is_Some (printedInstructions f)) before).
  { eapply Forall_impl; [exact Hall|]. intros f Hf.
    destruct (printedInstructions_spec f) as (Hunknown & Hseq & _).
    destruct (decide (In (xcmType f) knownVersions)) as [Hk|Hu].
    - destruct Hf as [Hf|[items Hitems]]; [done|]. rewrite (Hseq items); eauto.
    - rewrite Hunknown; eauto. }
  destruct (printedInstructions_spec fragment) as (_ & _ & Hnone).
  rewrite (decodeXCMGeneric_after_decode _ _ _ _ _ _ _ Hdec).
  destruct (printFragments_not_array env before fragment after 0
              {| world := w1; stdout := stdout c |} Harr
              (Hnone inner Hin Hwrapped))
    as (c' & Hrun & Hout).
  exists c'. split; [done|]. by rewrite Hout.
Qed.

Lemma printer_stops_at_non_array_witness :
  exists c',
    decodeXCMGeneric 5 demoRendering legacyProvider (U8a 0)
      (consoleWith (demoMessage ++ [x01; x01; x00] ++ [x05; x00]))
    = Some (Throw (TypeError "instructions.forEach"), c')
    /\ stdout c'
       = [ HashLine 1 "4"; HumanView "V3";
           LabelLine "Withdraw Asset"; InstructionLine "{withdrawAsset}";
           LabelLine "Deposit Asset"; InstructionLine "{depositAsset}";
           Separator;
           HashLine 2 "3"; HumanView "V1" ].
Proof.
  apply (printer_stops_at_non_array 5 demoRendering legacyProvider (U8a 0)
           (consoleWith (demoMessage ++ [x01; x01; x00] ++ [x05; x00]))
           [ {| xcmType := "V3";
                xcmValue := Sequence [demoInstruction x00; demoInstruction x02];
                xcmEncoded := demoMessage |} ]
           {| xcmType := "V1"; xcmValue := Wrapped [demoInstruction x00];
              xcmEncoded := [x01; x01; x00] |}
           [demoInstruction x00]
           [ {| xcmType := "V5"; xcmValue := Sequence [];
                xcmEncoded := [x05; x00] |} ]
           (snd (default (Normal [], callerWorld [])
                   (decodeMessageIntoFragmentVec 5 legacyProvider (U8a 0)
                      (callerWorld (demoMessage ++ [x01; x01; x00]
                                    ++ [x05; x00])))))).
  - vm_compute. reflexivity.
  - constructor; [|constructor]. right. by eexists.
  - unfold knownVersions; simpl. tauto.
  - reflexivity.
Defined.

(** Whatever the fragments, the loop of the printer only makes new
    buffers and only adds to what is printed. *)
Lemma printFragments_frame env fragments :
  forall i c result c',
    printFragments env i fragments c = Some (result, c') ->
    buffers (world c) ⊆ buffers (world c')
    /\ createTypeCalls (world c') = createTypeCalls (world c)
    /\ stderr (world c') = stderr (world c)
    /\ exists calls, stdout c' = stdout c ++ calls.
Proof.
  induction fragments as [|fragment rest IH]; intros i c result c' Hrun.
  - injection Hrun as <- <-. repeat split; [done|]. exists []. by rewrite app_nil_r.
  - rewrite printFragments_cons in Hrun.
    pose proof (afterHeader_buffers env (i + 1) fragment c) as Hsub.
    destruct (unwrap_normal fragment) as ([label [items|inner]] & Hu);
      rewrite Hu in Hrun; cbn [instructions forEach] in Hrun.
    + unfold bindP at 1 in Hrun. rewrite forEachItem_report in Hrun.
      unfold bindP at 1, consoleLog at 1 in Hrun. cbn [world stdout] in Hrun.
      apply IH in Hrun as (Hsub' & Hcalls & Herr & calls & Hout).
      cbn [world stdout] in *. split; [by etrans|]. split; [done|].
      split; [done|]. unfold afterHeader in Hout. cbn [stdout] in Hout.
      eexists. rewrite Hout, <- !app_assoc. reflexivity.
    + unfold bindP at 1, throwP at 1 in Hrun. injection Hrun as <- <-.
      split; [done|]. split; [done|]. split; [done|].
      unfold afterHeader. cbn [stdout]. by eexists.
Qed.

(** X14.  The printer, like the splitter, never writes to the buffer it
    is given: whether it returns or throws, the caller's buffer holds the
    bytes it held before.  It makes no decode attempt and prints no error
    line of its own, and it only adds to what was printed before. *)
Theorem printer_leaves_buffer_alone fuel env provider r c input result c' :
  buffers (world c) !! r = Some input ->
  decodeXCMGeneric fuel env provider (U8a r) c = Some (result, c') ->
  buffers (world c') !! r = Some input
  /\ (exists fragments w1,
        decodeMessageIntoFragmentVec fuel provider (U8a r) (world c)
          = Some (Normal fragments, w1)
        /\ createTypeCalls (world c') = createTypeCalls w1
        /\ stderr (world c') = stderr w1)
  /\ exists calls, stdout c' = stdout c ++ calls.
Proof.
  intros Hbuf Hrun.
  destruct (decodeMessageIntoFragmentVec fuel provider (U8a r) (world c))
    as [[decoded w1]|] eqn:Hdec.
  - destruct (decode_trace _ _ _ _ _ _ Hdec)
      as (fragments & _ & _ & _ & -> & _ & _ & _ & Hsub).
    rewrite (decodeXCMGeneric_after_decode _ _ _ _ _ _ _ Hdec) in Hrun.
    apply printFragments_frame in Hrun as (Hsub' & Hcalls & Herr & Hout).
    cbn [world stdout] in *. split; [|split; [|done]].
    + eapply lookup_weaken; [|exact Hsub']. by eapply lookup_weaken.
    + by exists fragments, w1.
  - unfold decodeXCMGeneric, bindP, liftM in Hrun. by rewrite Hdec in Hrun.
Qed.

Lemma printer_leaves_buffer_alone_witness :
  exists result c',
    decodeXCMGeneric 5 demoRendering legacyProvider (U8a 0)
      (consoleWith (demoMessage ++ [x01; x01; x00]))
    = Some (result, c')
    /\ buffers (world c') !! 0 = Some (demoMessage ++ [x01; x01; x00]).
Proof.
  destruct (decodeXCMGeneric 5 demoRendering legacyProvider (U8a 0)
              (consoleWith (demoMessage ++ [x01; x01; x00])))
    as [[result c']|] eqn:Hrun.
  - exists result, c'. split; [reflexivity|].
    exact (proj1 (printer_leaves_buffer_alone 5 demoRendering legacyProvider 0
                    (consoleWith (demoMessage ++ [x01; x01; x00]))
                    (demoMessage ++ [x01; x01; x00]) result c' eq_refl Hrun)).
  - vm_compute in Hrun. discriminate Hrun.
Defined.

(** ** The price ids *)

Lemma existsb_eqb_elem (value : string) (seen : list string) :
  existsb (String.eqb value) seen = true <-> value ∈ seen.
Proof.
  rewrite existsb_exists. split.
  - intros (x & Hin & Heq). apply String.eqb_eq in Heq. subst.
    by apply list_elem_of_In.
  - intros Hin. exists value. split; [by apply list_elem_of_In|].
    apply String.eqb_refl.
Qed.

(** What [addAll] adds to the set: a sublist of the values, none of
    which was there, without repetition. *)
Lemma addAll_spec values :
  forall seen,
    exists added,
      addAll seen values = seen ++ added
      /\ sublist added values
      /\ (NoDup seen -> NoDup (seen ++ added))
      /\ (forall x, x ∈ seen ++ added <-> x ∈ seen \/ x ∈ values).
Proof.
  induction values as [|value rest IH]; intros seen.
  - exists []. rewrite app_nil_r. repeat split; try done.
    + intros Hx. by left.
    + intros [Hx|Hx]; [done|]. by apply elem_of_nil in Hx.
  - cbn [addAll].
    destruct (existsb (String.eqb value) seen) eqn:Hseen.
    + apply existsb_eqb_elem in Hseen.
      destruct (IH seen) as (added & -> & Hsub & Hnd & Hmem).
      exists added. split; [done|]. split; [by apply sublist_cons|].
      split; [done|]. intros x. rewrite Hmem, elem_of_cons.
      split; [tauto|]. intros [Hx|[->|Hx]]; tauto.
    + assert (Hnot : value ∉ seen).
      { intros Hin. apply existsb_eqb_elem in Hin. congruence. }
      destruct (IH (seen ++ [value])) as (added & -> & Hsub & Hnd & Hmem).
      exists (value :: added). rewrite <- app_assoc. split; [done|].
      split; [by apply sublist_skip|]. split.
      * intros Hseen'.
        change (seen ++ value :: added) with (seen ++ [value] ++ added).
        rewrite app_assoc. apply Hnd, NoDup_app.
        repeat split; [done| |apply NoDup_singleton].
        intros x Hx Hx'. apply list_elem_of_singleton in Hx'. by subst.
      * intros x. specialize (Hmem x).
        change (seen ++ value :: added) with (seen ++ [value] ++ added).
        rewrite app_assoc, Hmem, elem_of_app, list_elem_of_singleton,
          (elem_of_cons rest x value). tauto.
Qed.

(** The order of what [addAll] adds: each added value first appears in
    the values before any of the values added after it. *)
Lemma addAll_first values :
  forall seen,
    exists added,
      addAll seen values = seen ++ added
      /\ (forall x, x ∈ added -> x ∉ seen)
      /\ (forall before x rest,
            added = before ++ x :: rest ->
            exists front back,
              values = front ++ x :: back
              /\ (x ∉ front)
              /\ forall y, y ∈ rest -> y ∉ front).
Proof.
  induction values as [|value values IH]; intros seen.
  - exists []. rewrite app_nil_r. split; [done|]. split.
    + intros x Hx. by apply elem_of_nil in Hx.
    + intros before x rest E. by destruct before.
  - cbn [addAll].
    destruct (existsb (String.eqb value) seen) eqn:Hseen.
    + apply existsb_eqb_elem in Hseen.
      destruct (IH seen) as (added & -> & Hnew & Hord).
      exists added. split; [done|]. split; [done|].
      intros before x rest E.
      destruct (Hord before x rest E) as (front & back & -> & Hx & Hrest).
      exists (value :: front), back. split; [done|]. split.
      * apply not_elem_of_cons. split; [|done]. intros ->.
        apply (Hnew value); [|done]. rewrite E, elem_of_app, elem_of_cons. tauto.
      * intros y Hy. apply not_elem_of_cons. split; [|by apply Hrest].
        intros ->. apply (Hnew value); [|done].
        rewrite E, elem_of_app, elem_of_cons. tauto.
    + assert (Hnot : value ∉ seen).
      { intros Hin. apply existsb_eqb_elem in Hin. congruence. }
      destruct (IH (seen ++ [value])) as (added & -> & Hnew & Hord).
      exists (value :: added). rewrite <- app_assoc. split; [done|]. split.
      * intros x Hx. apply elem_of_cons in Hx as [->|Hx]; [done|].
        intros Hin. apply (Hnew x Hx). rewrite elem_of_app. by left.
      * intros before x rest E. destruct before as [|first before].
        { injection E as <- <-. exists [], values. split; [done|]. split.
          - intros Hx. by apply elem_of_nil in Hx.
          - intros y _ Hy. by apply elem_of_nil in Hy. }
        injection E as <- E.
        destruct (Hord before x rest E) as (front & back & -> & Hx & Hrest).
        assert (Hfresh : forall y, y ∈ added -> y <> value).
        { intros y Hy ->. apply (Hnew value Hy).
          rewrite elem_of_app, list_elem_of_singleton. by right. }
        exists (value :: front), back. split; [done|]. split.
        -- apply not_elem_of_cons. split; [|done]. apply Hfresh.
           rewrite E, elem_of_app, elem_of_cons. tauto.
        -- intros y Hy. apply not_elem_of_cons. split; [|by apply Hrest].
           apply Hfresh. rewrite E, elem_of_app, elem_of_cons. tauto.
Qed.

Section PriceIdFacts.
Context {Asset : Type} (apiNameOf : Asset -> option string).

Lemma truthy_nonempty (text : string) : truthy text = true <-> text <> "".
Proof.
  unfold truthy. rewrite negb_true_iff. apply String.eqb_neq.
Qed.

Lemma apiNames_elem (jsonData : list Asset) id :
  id ∈ apiNames apiNameOf jsonData
  <-> id <> "" /\ exists asset, asset ∈ jsonData /\ apiNameOf asset = Some id.
Proof.
  unfold apiNames. rewrite list_elem_of_omap. split.
  - intros (value & Hin & Hid). simpl in Hid. subst value.
    apply list_elem_of_In, filter_In in Hin as [Hin Htrue].
    apply in_map_iff in Hin as (asset & Hname & Hasset).
    split; [by apply truthy_nonempty|].
    exists asset. split; [by apply list_elem_of_In|done].
  - intros (Hne & asset & Hin & Hname). exists (Some id). split; [|done].
    apply list_elem_of_In, filter_In. split.
    + apply in_map_iff. exists asset. split; [done|by apply list_elem_of_In].
    + by apply truthy_nonempty.
Qed.

(** X15.  The ids of the batched price request: every id is asked once;
    the ids are exactly the non-empty api-names of the assets, in the
    order in which they first appear (when an id stands before another in
    the request, it occurs among the api-names before the first occurrence
    of the other); and no request is made exactly when no asset has a
    non-empty api-name. *)
Theorem price_ids_asked_once (jsonData : list Asset) :
  NoDup (uniqueApiNames apiNameOf jsonData)
  /\ (forall id,
        id ∈ uniqueApiNames apiNameOf jsonData
        <-> id <> ""
            /\ exists asset, asset ∈ jsonData /\ apiNameOf asset = Some id)
  /\ sublist (uniqueApiNames apiNameOf jsonData) (apiNames apiNameOf jsonData)
  /\ (idsParam apiNameOf jsonData = None
      <-> forall asset,
            asset ∈ jsonData ->
            apiNameOf asset = None \/ apiNameOf asset = Some "")
  /\ (forall before x between y after,
        uniqueApiNames apiNameOf jsonData
          = before ++ x :: between ++ y :: after ->
        exists front back,
          apiNames apiNameOf jsonData = front ++ x :: back
          /\ (x ∉ front)
          /\ (y ∉ front)).
Proof.
  unfold idsParam, uniqueApiNames, spreadSet.
  destruct (addAll_spec (apiNames apiNameOf jsonData) [])
    as (added & Hrun & Hsub & Hnd & Hmem).
  destruct (addAll_first (apiNames apiNameOf jsonData) [])
    as (added' & Hrun' & _ & Hord).
  rewrite Hrun in Hrun'. cbn [app] in Hrun'. subst added'.
  rewrite Hrun. cbn [app] in *.
  assert (Helem : forall id,
            id ∈ added
            <-> id <> ""
                /\ exists asset, asset ∈ jsonData /\ apiNameOf asset = Some id).
  { intros id. rewrite Hmem, <- apiNames_elem. split; [|tauto].
    intros [Hnil|Hin]; [|done]. by apply elem_of_nil in Hnil. }
  split; [apply Hnd, NoDup_nil_2|]. split; [done|]. split; [done|]. split.
  - clear Hord Hsub Hnd Hmem Hrun.
    destruct added as [|first added]; simpl.
    + split; [|done]. intros _ asset Hin.
      destruct (apiNameOf asset) as [id|] eqn:Hname; [|by left]. right.
      destruct (String.eqb_spec id "") as [->|Hne]; [done|].
      exfalso. eapply elem_of_nil, Helem. eauto.
    + split; [discriminate|]. intros Hnone. exfalso.
      destruct (proj1 (Helem first)) as (Hne & asset & Hin & Hname);
        [apply elem_of_cons; by left|].
      destruct (Hnone asset Hin) as [Hn|Hn]; congruence.
  - intros before x between y after E.
    destruct (Hord before x (between ++ y :: after) E)
      as (front & back & Hvalues & Hx & Hrest).
    exists front, back. split; [done|]. split; [done|].
    apply Hrest. rewrite elem_of_app, elem_of_cons. tauto.
Qed.
End PriceIdFacts.

Lemma price_ids_asked_once_witness :
  uniqueApiNames id [Some "polkadot"; None; Some ""; Some "kusama"; Some "polkadot"]
    = ["polkadot"; "kusama"]
  /\ NoDup ["polkadot"; "kusama"]
  /\ idsParam id [None; Some ""] = None.
Proof.
  split; [reflexivity|]. split.
  - exact (proj1 (price_ids_asked_once id
                    [Some "polkadot"; None; Some ""; Some "kusama";
                     Some "polkadot"])).
  - apply (price_ids_asked_once id [None; Some ""]).
    intros asset Hin.
    apply elem_of_cons in Hin as [->|Hin]; [by left|].
    apply list_elem_of_singleton in Hin as ->. by right.
Defined.

(** ** The address derivation script *)

Lemma andNext_inr {A B} (m : Script A) (k : A -> Script B) printed a printed1 :
  m printed = (inr a, printed1) ->
  andNext m k printed = k a printed1.
Proof. intros E. unfold andNext. by rewrite E. Qed.

Lemma andNext_inl {A B} (m : Script A) (k : A -> Script B) printed e printed1 :
  m printed = (inl e, printed1) ->
  andNext m k printed = (inl e, printed1).
Proof. intros E. unfold andNext. by rewrite E. Qed.

(** Mode 1 is entered with no address, no consensus and no third
    parent. *)
Lemma isModeOne_true args :
  isModeOne args = true ->
  jsBoolean (argAddress args) = false
  /\ jsBoolean (argConsensus args) = false
  /\ (exists paraId, argParaId args = Some paraId)
  /\ (argParents args =? 2)%Z = false.
Proof.
  unfold isModeOne. rewrite !andb_true_iff, !negb_true_iff, orb_true_iff.
  intros [[[Ha Hc] Hp] Hparents]. repeat split; [done..| |].
  - destruct (argParaId args); [by eexists|done].
  - destruct Hparents as [H|H]; apply Z.eqb_eq in H; rewrite H; reflexivity.
Qed.

(** The run of [main] in mode 1 is the run of [modeOne]. *)
Lemma deriveMain_modeOne tk args paraId :
  isModeOne args = true ->
  argParaId args = Some paraId ->
  deriveMain tk args = modeOne tk (argParents args) paraId.
Proof.
  intros Hmode Hid.
  destruct (isModeOne_true _ Hmode) as (Ha & Hc & _ & Hp).
  unfold deriveMain. rewrite Hmode, Ha, Hc, Hp, Hid. reflexivity.
Qed.

(** X16.  In mode 1 a run that ends normally has printed seven lines and
    nothing else; no printed line carries a hash.  The account printed as
    32-byte raw is exactly 32 bytes long: the bytes of "para" (no parent) or "sibl"
    (one parent), then the para id on 16 bits, then zeros; the 20-byte raw
    is its first 20 bytes. *)
Theorem mode_one_account_is_32_bytes tk args paraId printed printed' :
  isModeOne args = true ->
  argParaId args = Some paraId ->
  deriveMain tk args printed = (inr tt, printed') ->
  let typeString := if (argParents args =? 0)%Z then "para" else "sibl" in
  exists paraIdEncoded ss58 padding,
    bnToU8a tk paraId 16 = inr paraIdEncoded
    /\ encodeAddress tk
         (stringToU8a tk typeString ++ paraIdEncoded ++ replicate padding x00)
       = inr ss58
    /\ length (stringToU8a tk typeString ++ paraIdEncoded
               ++ replicate padding x00) = 32
    /\ length (take 20 (stringToU8a tk typeString ++ paraIdEncoded
                        ++ replicate padding x00)) = 20
    /\ printed'
       = printed
         ++ [ ModeBanner; TypeLine typeString; ParentsLine (argParents args);
              ParaIdLine paraId;
              Raw32Line (stringToU8a tk typeString ++ paraIdEncoded
                         ++ replicate padding x00);
              Raw20Line (take 20 (stringToU8a tk typeString ++ paraIdEncoded
                                  ++ replicate padding x00));
              Ss58Line ss58 ].
Proof.
  intros Hmode Hid Hrun typeString.
  rewrite (deriveMain_modeOne tk args paraId Hmode Hid) in Hrun.
  unfold modeOne in Hrun. fold typeString in Hrun.
  destruct (bnToU8a tk paraId 16) as [e|paraIdEncoded] eqn:Hbn.
  { rewrite (andNext_inl _ _ _ (ByLibrary e) printed) in Hrun; [done|].
    unfold library. reflexivity. }
  rewrite (andNext_inr _ _ _ paraIdEncoded printed) in Hrun by reflexivity.
  set (total := length (stringToU8a tk typeString) + length paraIdEncoded) in *.
  destruct (32 <? total) eqn:Hlen; [discriminate|].
  apply Nat.ltb_ge in Hlen.
  remember (stringToU8a tk typeString ++ paraIdEncoded
            ++ replicate (32 - total) x00) as accountBytes eqn:Hacc.
  assert (Hsize : length accountBytes = 32).
  { rewrite Hacc, !length_app, length_replicate. fold total. lia. }
  destruct (encodeAddress tk accountBytes) as [e|ss58] eqn:Henc.
  { rewrite (andNext_inl _ _ _ (ByLibrary e) printed) in Hrun; [done|].
    reflexivity. }
  rewrite (andNext_inr _ _ _ ss58 printed) in Hrun by reflexivity.
  unfold andNext, say in Hrun. injection Hrun as <-.
  exists paraIdEncoded, ss58, (32 - total). rewrite <- Hacc.
  split; [done|]. split; [done|]. split; [done|].
  split; [rewrite length_take; lia|].
  by rewrite <- !app_assoc.
Qed.

Lemma mode_one_account_is_32_bytes_witness :
  exists account ss58,
    deriveMain demoToolkit
      {| argAddress := None; argParents := 1; argParaId := Some 2000%Z;
         argConsensus := None |} []
    = (inr tt,
       [ ModeBanner; TypeLine "sibl"; ParentsLine 1; ParaIdLine 2000;
         Raw32Line account; Raw20Line (take 20 account); Ss58Line ss58 ])
    /\ length account = 32.
Proof.
  destruct (mode_one_account_is_32_bytes demoToolkit
              {| argAddress := None; argParents := 1; argParaId := Some 2000%Z;
                 argConsensus := None |} 2000%Z []
              (snd (deriveMain demoToolkit
                      {| argAddress := None; argParents := 1;
                         argParaId := Some 2000%Z; argConsensus := None |} [])))
    as (encoded & ss58 & padding & _ & _ & Hsize & _ & Hprinted).
  - reflexivity.
  - reflexivity.
  - vm_compute. reflexivity.
  - eexists _, ss58. split; [|exact Hsize].
    transitivity
      (inr (B := unit) (A := Thrown) tt,
       snd (deriveMain demoToolkit
              {| argAddress := None; argParents := 1;
                 argParaId := Some 2000%Z; argConsensus := None |} [])).
    + vm_compute. reflexivity.
    + rewrite Hprinted. reflexivity.
Defined.

(** X17.  With two parents and no consensus given the script fails with
    its own error about the consensus type and prints nothing, provided
    the address, when there is one, is 42 characters long or is decoded by
    the library (a failure of that decoding comes first). *)
Theorem two_parents_need_consensus tk args printed :
  argParents args = 2%Z ->
  jsBoolean (argConsensus args) = false ->
  jsBoolean (argAddress args) = false
  \/ String.length (default "" (argAddress args)) = 42
  \/ (exists decoded,
        decodeAddress tk (default "" (argAddress args)) = inr decoded) ->
  deriveMain tk args printed
  = (inl (ByScript
            "For 2 Parents, Consensus type must be specified as Polkadot or Kusama"),
     printed).
Proof.
  intros Hp Hc Haddr. unfold deriveMain. rewrite Hp, Hc. cbn [Z.eqb andb negb].
  destruct (jsBoolean (argAddress args)) eqn:Ha; [|reflexivity].
  cbn [andb].
  destruct (String.length (default "" (argAddress args)) =? 42) eqn:Hlen;
    [reflexivity|].
  destruct Haddr as [Hf|[H42|[decoded Hdec]]].
  - discriminate.
  - apply Nat.eqb_neq in Hlen. done.
  - unfold andNext at 1. unfold andNext at 1, library at 1. by rewrite Hdec.
Qed.

Lemma two_parents_need_consensus_witness :
  deriveMain demoToolkit
    {| argAddress := Some "5Gabc"; argParents := 2; argParaId := Some 2000%Z;
       argConsensus := None |} []
  = (inl (ByScript
            "For 2 Parents, Consensus type must be specified as Polkadot or Kusama"),
     []).
Proof.
  apply (two_parents_need_consensus demoToolkit
           {| argAddress := Some "5Gabc"; argParents := 2;
              argParaId := Some 2000%Z; argConsensus := None |} []).
  - reflexivity.
  - reflexivity.
  - right. right. eexists. reflexivity.
Defined.

Lemma andNext_fails {A B} (m : Script A) (k : A -> Script B) printed t printed' :
  andNext m k printed = (inl t, printed') ->
  m printed = (inl t, printed')
  \/ exists a printed1,
       m printed = (inr a, printed1) /\ k a printed1 = (inl t, printed').
Proof.
  unfold andNext. destruct (m printed) as [[e|a] printed1].
  - intros [= -> ->]. by left.
  - intros Hk. right. by exists a, printed1.
Qed.

Lemma andNext_returns {A B} (m : Script A) (k : A -> Script B) printed b printed' :
  andNext m k printed = (inr b, printed') ->
  exists a printed1,
    m printed = (inr a, printed1) /\ k a printed1 = (inr b, printed').
Proof.
  unfold andNext. destruct (m printed) as [[e|a] printed1]; [discriminate|].
  intros Hk. by exists a, printed1.
Qed.

(** The only error [bytesToHash] raises about a missing consensus needs
    two parents and no consensus value. *)
Lemma bytesToHash_consensus_error tk args eth acc dec consensus family
    printed printed' :
  bytesToHash tk args eth acc dec consensus family printed
    = (inl (ByScript "Consensus must be set for parents=2"), printed') ->
  (argParents args =? 2)%Z = true /\ consensus = None.
Proof.
  unfold bytesToHash.
  destruct (if jsBoolean (argAddress args) then dec else None) as [decoded|];
    [destruct acc as [accountType|]|].
  - destruct (argParents args =? 2)%Z.
    + destruct consensus as [network|]; [|done].
      destruct (negb eth || negb (String.eqb accountType "AccountKey20"));
        [discriminate|].
      destruct (argParaId args) as [paraId|]; [|discriminate].
      intros Hrun. exfalso.
      apply andNext_fails in Hrun as [Hrun|(j & p1 & _ & Hrun)];
        [|discriminate].
      unfold library in Hrun. by destruct (junctionPair tk _ _ _).
    + intros Hrun. exfalso.
      apply andNext_fails in Hrun as [Hrun|(pb & p1 & _ & Hrun)].
      { destruct (argParaId args); [|discriminate].
        unfold library in Hrun. by destruct (compactU32 tk _). }
      apply andNext_fails in Hrun as [Hrun|(lb & p2 & _ & Hrun)];
        [|discriminate].
      unfold library in Hrun. by destruct (compactU32 tk _).
  - intros Hrun. exfalso.
    apply andNext_fails in Hrun as [Hrun|(pb & p1 & _ & Hrun)].
    { destruct (argParaId args); [|discriminate].
      unfold library in Hrun. by destruct (bnToU8a tk _ _). }
    discriminate.
  - intros Hrun. exfalso.
    apply andNext_fails in Hrun as [Hrun|(pb & p1 & _ & Hrun)].
    { destruct (argParaId args); [|discriminate].
      unfold library in Hrun. by destruct (bnToU8a tk _ _). }
    discriminate.
Qed.

Lemma modeOne_consensus_error tk parents paraId printed printed' :
  modeOne tk parents paraId printed
  <> (inl (ByScript "Consensus must be set for parents=2"), printed').
Proof.
  unfold modeOne. intros Hrun.
  apply andNext_fails in Hrun as [Hrun|(encoded & p1 & _ & Hrun)].
  { unfold library in Hrun. by destruct (bnToU8a tk _ _). }
  destruct (32 <? _).
  { destruct (parents =? 0)%Z; discriminate. }
  apply andNext_fails in Hrun as [Hrun|(ss58 & p2 & _ & Hrun)];
    [|discriminate].
  unfold library in Hrun. by destruct (encodeAddress tk _).
Qed.

(** X18.  The script never throws its own error "Consensus must be set
    for parents=2": the test that guards it can only be reached with two
    parents, and then the consensus was set a few lines above, or the
    script has already thrown for the missing consensus. *)
Theorem consensus_check_never_fires tk args printed :
  fst (deriveMain tk args printed)
  <> inl (ByScript "Consensus must be set for parents=2").
Proof.
  destruct (deriveMain tk args printed) as [[t|u] printed'] eqn:Hrun;
    [|discriminate].
  simpl. intros [= ->]. unfold deriveMain in Hrun.
  apply andNext_fails in Hrun as [Hrun|(decoded & p1 & _ & Hrun)].
  { destruct (jsBoolean (argAddress args)); [|discriminate].
    destruct (_ && _); [discriminate|].
    apply andNext_fails in Hrun as [Hrun|(? & ? & _ & Hrun)]; [|discriminate].
    unfold library in Hrun. by destruct (decodeAddress tk _). }
  apply andNext_fails in Hrun as [Hrun|(consensus & p2 & Hcons & Hrun)].
  { destruct (_ && _); [discriminate|]. by destruct (_ && _). }
  destruct (isModeOne args).
  { destruct (argParaId args); [|discriminate].
    by apply modeOne_consensus_error in Hrun. }
  apply andNext_fails in Hrun as [Hrun|(toHash & p3 & _ & Hrun)].
  - apply bytesToHash_consensus_error in Hrun as [Hp ->].
    rewrite Hp in Hcons. simpl in Hcons.
    by destruct (jsBoolean (argConsensus args)).
  - unfold andNext, say, done in Hrun.
    destruct (argParaId args), (isDefined consensus),
      (if jsBoolean (argAddress args) then _ else None);
      try destruct (jsBoolean (argAddress args)); discriminate.
Qed.

(** The bytes to hash, when they are made: they start with the family
    name, and they are printed first when there is no address. *)
Lemma bytesToHash_returns tk args eth acc dec consensus family printed
    toHash printed1 :
  bytesToHash tk args eth acc dec consensus family printed
    = (inr toHash, printed1) ->
  textEncode tk family `prefix_of` toHash
  /\ (printed1 = printed
      \/ (jsBoolean (argAddress args) = false \/ dec = None \/ acc = None)
         /\ printed1 = printed ++ [ToHashLine toHash])
  /\ (jsBoolean (argAddress args) = false ->
      printed1 = printed ++ [ToHashLine toHash]).
Proof.
  assert (Hplain : forall (m : Script (list byte)),
            (forall p a p', m p = (inr a, p') -> p' = p) ->
            forall t p1,
              (paraIdBytes <~ m ;;
               let toHash := textEncode tk family ++ default [] consensus
                             ++ paraIdBytes in
               _ <~ say (ToHashLine toHash) ;; done toHash) printed
              = (inr t, p1) ->
              textEncode tk family `prefix_of` t
              /\ p1 = printed ++ [ToHashLine t]).
  { intros m Hm t p1 Hrun.
    apply andNext_returns in Hrun as (pb & p0 & Hpb & Hrun).
    apply Hm in Hpb as ->.
    unfold andNext, say, done in Hrun. injection Hrun as <- <-.
    split; [by eexists|done]. }
  assert (Hpara32 : forall p a p',
            match argParaId args with
            | Some paraId => library (bnToU8a tk paraId 32)
            | None => done []
            end p = (inr a, p') -> p' = p).
  { intros p a p'. destruct (argParaId args); [|by intros [= _ <-]].
    unfold library. destruct (bnToU8a tk _ _); [done|]. by intros [= _ <-]. }
  unfold bytesToHash.
  destruct (jsBoolean (argAddress args)) eqn:Ha.
  - destruct dec as [decoded|]; [destruct acc as [accountType|]|].
    + destruct (argParents args =? 2)%Z.
      * destruct consensus as [network|]; [|discriminate].
        destruct (negb eth || negb (String.eqb accountType "AccountKey20"));
          [discriminate|].
        destruct (argParaId args) as [paraId|]; [|discriminate].
        intros Hrun.
        apply andNext_returns in Hrun as (j & p1 & Hlib & Hrun).
        unfold library in Hlib. destruct (junctionPair tk _ _ _); [done|].
        injection Hlib as _ <-. unfold done in Hrun. injection Hrun as <- <-.
        split; [by eexists|]. split; [by left|done].
      * intros Hrun.
        apply andNext_returns in Hrun as (pb & p1 & Hpb & Hrun).
        apply andNext_returns in Hrun as (lb & p2 & Hlb & Hrun).
        assert (p1 = printed) as ->.
        { destruct (argParaId args); [|by injection Hpb as _ <-].
          unfold library in Hpb. destruct (compactU32 tk _); [done|].
          by injection Hpb as _ <-. }
        unfold library in Hlb. destruct (compactU32 tk _); [done|].
        injection Hlb as _ <-. unfold done in Hrun. injection Hrun as <- <-.
        split; [by eexists|]. split; [by left|done].
    + intros Hrun. apply Hplain in Hrun as [Hpre ->]; [|exact Hpara32].
      split; [done|]. split; [|done]. right. split; [|done]. right. by right.
    + intros Hrun. apply Hplain in Hrun as [Hpre ->]; [|exact Hpara32].
      split; [done|]. split; [|done]. right. split; [|done]. right. by left.
  - intros Hrun. apply Hplain in Hrun as [Hpre ->]; [|exact Hpara32].
    split; [done|]. split; [|done]. right. split; [|done]. by left.
Qed.

(** X19.  When the script hashes (every case but the plain account of a
    parachain seen from its relay or a sibling) and ends normally, the last
    two lines it prints are the 32-byte and the 20-byte address; both are
    cut from one hash, of bytes that begin with the family name, so that
    the 20-byte address is the first 20 bytes of the 32-byte one. *)
Theorem hashed_addresses_share_one_hash tk args printed0 printed :
  isModeOne args = false ->
  deriveMain tk args printed0 = (inr tt, printed) ->
  exists toHash before address32,
    textEncode tk (familyOf args) `prefix_of` toHash
    /\ address32 = take 32 (blake2 tk toHash)
    /\ printed = before ++ [Address32Line address32;
                            Address20Line (take 20 address32)].
Proof.
  intros Hmode Hrun. unfold deriveMain in Hrun. cbv zeta in Hrun.
  rewrite Hmode in Hrun.
  apply andNext_returns in Hrun as (dec & p1 & _ & Hrun).
  apply andNext_returns in Hrun as (consensus & p2 & _ & Hrun).
  apply andNext_returns in Hrun as (toHash & p3 & HtoHash & Hrun).
  apply andNext_returns in Hrun as (? & p4 & _ & Hrun).
  apply andNext_returns in Hrun as (? & p5 & _ & Hrun).
  apply andNext_returns in Hrun as (? & p6 & _ & Hrun).
  apply andNext_returns in Hrun as (? & p7 & _ & Hrun).
  apply andNext_returns in Hrun as (? & p8 & _ & Hrun).
  apply andNext_returns in Hrun as (? & p9 & H32 & Hrun).
  unfold say in H32, Hrun. injection H32 as H32. subst p9. injection Hrun as <-.
  apply bytesToHash_returns in HtoHash as [Hprefix _].
  exists toHash, p8, (take 32 (blake2 tk toHash)).
  split; [exact Hprefix|]. split; [reflexivity|].
  rewrite <- app_assoc, take_take. reflexivity.
Qed.

Lemma hashed_addresses_share_one_hash_witness :
  exists toHash before address32,
    textEncode demoToolkit "SiblingChain" `prefix_of` toHash
    /\ address32 = take 32 (blake2 demoToolkit toHash)
    /\ snd (deriveMain demoToolkit
              {| argAddress := Some "5Gabc"; argParents := 1;
                 argParaId := Some 2000%Z; argConsensus := None |} [])
       = before ++ [Address32Line address32;
                    Address20Line (take 20 address32)].
Proof.
  apply (hashed_addresses_share_one_hash demoToolkit
           {| argAddress := Some "5Gabc"; argParents := 1;
              argParaId := Some 2000%Z; argConsensus := None |} []).
  - reflexivity.
  - vm_compute. reflexivity.
Defined.

(** ** The splitter returns, with a capability that makes progress *)

(** The fragments of a trace are those of as many passes. *)
Lemma trace_passes provider b fragments remainder calls lines :
  SplitTrace provider b fragments remainder calls lines ->
  forall acc,
    passes (length fragments) provider acc b = Some (acc ++ fragments, remainder).
Proof.
  induction 1 as [|b e1 e2 Hne E1 E2|b f fs rem cs ls Hne E Htr IH
                  |b e1 f fs rem cs ls Hne E1 E2 Htr IH]; intros acc.
  - by rewrite app_nil_r.
  - by rewrite app_nil_r.
  - cbn [length passes].
    destruct (length b =? 0) eqn:El.
    { apply Nat.eqb_eq in El. by destruct b. }
    rewrite (trace_resolve_primary provider b f E).
    unfold encodedLength in IH. by rewrite IH, <- app_assoc.
  - cbn [length passes].
    destruct (length b =? 0) eqn:El.
    { apply Nat.eqb_eq in El. by destruct b. }
    rewrite (trace_resolve_fallback provider b e1 f E1 E2).
    unfold encodedLength in IH. by rewrite IH, <- app_assoc.
Qed.

(** C6, as stated, at a capability whose every decode succeeds with a
    value that re-encodes to zero bytes: on the one-byte buffer 00 the
    call never returns, so no list is handed to the caller. *)
Lemma stalled_call_never_returns :
  ~ (exists fuel result,
       decodeMessageIntoFragmentVec fuel stallProvider (U8a 0)
         (callerWorld [x00]) = Some result).
Proof.
  intros (fuel & result & Hrun). rewrite decode_U8a in Hrun.
  pose proof (splitLoop_fragmentsOf stallProvider fuel 0 [] (callerWorld [x00]))
    as Hview.
  change (buffers (callerWorld [x00]) !!! 0) with [x00] in Hview.
  rewrite stall_fragmentsOf in Hview by discriminate.
  by rewrite Hview in Hrun.
Qed.

(** C6, amended.  Let every value the capability decodes re-encode to at
    least one byte.  Then on every byte-sequence input the splitter
    returns a list without throwing, as soon as the fuel exceeds the
    length of the input: the list holds the fragments of the passes made,
    in the order in which they were cut from the input, and either no
    byte is left and nothing is printed, or the bytes left fail under both
    schemas and the error is printed, not thrown.  No run ends in a
    throw.  An empty input yields the empty list, with the state
    untouched.  When, after any number of passes, both schemas fail on the
    remaining bytes, the fragments decoded up to there are returned. *)
Theorem splitter_returns_partial_list provider r w input :
  makesProgress provider ->
  buffers w !! r = Some input ->
  (forall fuel,
      length input < fuel ->
      exists k fragments remainder w',
        decodeMessageIntoFragmentVec fuel provider (U8a r) w
          = Some (Normal fragments, w')
        /\ passes k provider [] input = Some (fragments, remainder)
        /\ ((remainder = [] /\ stderr w' = stderr w)
            \/ (remainder <> []
                /\ exists e1 e2,
                     resolve provider remainder = inl (e1, e2)
                     /\ stderr w' = stderr w ++ [failureLine e1 e2])))
  /\ (forall fuel c w',
        decodeMessageIntoFragmentVec fuel provider (U8a r) w = Some (c, w') ->
        exists fragments, c = Normal fragments)
  /\ (input = [] ->
      forall fuel,
        decodeMessageIntoFragmentVec (S fuel) provider (U8a r) w
          = Some (Normal [], w))
  /\ (forall k decoded remainder e1 e2 fuel,
        passes k provider [] input = Some (decoded, remainder) ->
        remainder <> [] ->
        resolve provider remainder = inl (e1, e2) ->
        exists w',
          decodeMessageIntoFragmentVec (k + S fuel) provider (U8a r) w
            = Some (Normal decoded, w')
          /\ stderr w' = stderr w ++ [failureLine e1 e2]).
Proof.
  intros Hprog Hbuf. apply lookup_total_of_lookup in Hbuf.
  split; [|split; [|split]].
  - intros fuel Hfuel.
    destruct (fragmentsOf_terminates provider Hprog fuel input Hfuel)
      as (fragments & remainder & Hview & _).
    pose proof (splitLoop_fragmentsOf provider fuel r [] w) as Hloop.
    rewrite Hbuf, Hview in Hloop.
    destruct Hloop as (r' & w' & Hloop & _).
    assert (Hrun : decodeMessageIntoFragmentVec fuel provider (U8a r) w
                   = Some (Normal fragments, w')).
    { by rewrite decode_U8a, Hloop. }
    destruct (decode_trace _ _ _ _ _ _ Hrun)
      as (fs & rem & calls & lines & Hres & Htrace & _ & Herr & _).
    injection Hres as <-. rewrite Hbuf in Htrace.
    exists (length fragments), fragments, rem, w'. split; [done|].
    split; [exact (trace_passes _ _ _ _ _ _ Htrace [])|].
    destruct (trace_stop _ _ _ _ _ _ Htrace)
      as [[-> ->]|(Hne & e1 & e2 & Hfail & ->)].
    + left. by rewrite Herr, app_nil_r.
    + right. split; [done|]. by exists e1, e2.
  - intros fuel c w' Hrun.
    destruct (decode_trace _ _ _ _ _ _ Hrun) as (fs & _ & _ & _ & -> & _).
    by eexists.
  - intros -> fuel. by rewrite decode_U8a, splitLoop_empty.
  - intros k decoded remainder e1 e2 fuel Hp Hne Hres.
    rewrite <- Hbuf in Hp.
    destruct (splitLoop_passes provider k [] r w decoded remainder (S fuel) Hp)
      as (r' & w1 & Hrun & Hrem & _ & Herr).
    rewrite <- Hrem in Hne, Hres.
    eexists. rewrite decode_U8a, Hrun.
    rewrite (splitLoop_break _ _ _ _ _ e1 e2) by done.
    split; [reflexivity|]. simpl. by rewrite Herr.
Qed.

Lemma splitter_returns_partial_list_witness :
  (exists w',
      decodeMessageIntoFragmentVec 3 (demoProvider primarySchema) (U8a 0)
        (callerWorld (demoMessage ++ [x05; x00; x09]))
      = Some (Normal [ {| xcmType := "V3";
                          xcmValue := Sequence [demoInstruction x00;
                                                demoInstruction x02];
                          xcmEncoded := demoMessage |};
                       {| xcmType := "V5";
                          xcmValue := Sequence [];
                          xcmEncoded := [x05; x00] |} ], w')
      /\ stderr w' = ["Unable to find type StagingXcmVersionedXcm"])
  /\ decodeMessageIntoFragmentVec 1 (demoProvider primarySchema) (U8a 0)
       (callerWorld [])
     = Some (Normal [], callerWorld [])
  /\ (exists k fragments remainder w',
        decodeMessageIntoFragmentVec 8 (demoProvider primarySchema) (U8a 0)
          (callerWorld (demoMessage ++ [x05; x00; x09]))
        = Some (Normal fragments, w')
        /\ passes k (demoProvider primarySchema) []
             (demoMessage ++ [x05; x00; x09])
           = Some (fragments, remainder)).
Proof.
  split; [|split].
  - destruct (splitter_returns_partial_list (demoProvider primarySchema) 0
                (callerWorld (demoMessage ++ [x05; x00; x09]))
                (demoMessage ++ [x05; x00; x09])
                (demo_makesProgress primarySchema) eq_refl)
      as (_ & _ & _ & Hpartial).
    apply (Hpartial 2 _ [x09] (Error "Unexpected end of input")
             (Error ("Unable to find type " +:+ fallbackSchema)) 0).
    + reflexivity.
    + discriminate.
    + reflexivity.
  - destruct (splitter_returns_partial_list (demoProvider primarySchema) 0
                (callerWorld []) [] (demo_makesProgress primarySchema) eq_refl)
      as (_ & _ & Hempty & _).
    apply (Hempty eq_refl 0).
  - destruct (splitter_returns_partial_list (demoProvider primarySchema) 0
                (callerWorld (demoMessage ++ [x05; x00; x09]))
                (demoMessage ++ [x05; x00; x09])
                (demo_makesProgress primarySchema) eq_refl)
      as (Hreturns & _).
    destruct (Hreturns 8) as (k & fragments & remainder & w' & Hrun & Hp & _).
    + simpl. lia.
    + by exists k, fragments, remainder, w'.
Defined.
